(** * Staged freeze / unfreeze of a pretrained network

  Shallow embedding of [modelci/experimental/finetuner/transfer_learning.py]:
  the utility functions [_make_trainable], [_recursive_freeze], [freeze],
  [filter_params] and [_unfreeze_and_add_param_group], together with the
  parts of [torch.nn.Module] and [torch.optim.Optimizer] they call.

  A network is a tree of modules: a module object is registered at one
  place.  Parameters are objects with identity: a module holds references
  ([param]) into a heap that stores each parameter's [requires_grad] flag,
  so a parameter registered on two modules is one heap cell.  The mode
  ([training]) is a field of the module itself; a function that changes
  modes returns the module as it has become, next to the heap.

  The stage scheduler of the specification is not among the source files;
  it is modelled from the specification, on top of the source's
  [_unfreeze_and_add_param_group]. *)

From Stdlib Require Import ZArith List Floats Lia Ascii.
From stdpp Require Import gmap list strings.
Import ListNotations.

Local Open Scope Z_scope.
#[local] Set Warnings "-clear-no-such-hyp".

(** ** Python list slicing with a single bound *)

Module PySlice.

(** Index adjustment of [l[:i]] and [l[i:]] (step 1): a negative bound
    counts from the end, and every bound is clamped to [0 .. len]. *)
Definition adjust_index (len : nat) (i : Z) : nat :=
  if i <? 0
  then Z.to_nat (Z.max (i + Z.of_nat len) 0)
  else Z.to_nat (Z.min i (Z.of_nat len)).

(** [l[:stop]] *)
Definition slice_to {A} (l : list A) (stop : Z) : list A :=
  take (adjust_index (length l) stop) l.

(** [l[start:]] *)
Definition slice_from {A} (l : list A) (start : Z) : list A :=
  drop (adjust_index (length l) start) l.

End PySlice.

(** ** The parts of torch the functions rely on *)

Module Torch.

(** Identity of a [torch.nn.Parameter]. *)
Abbreviation param := positive (only parsing).

(** The heap of parameter objects: identity ↦ [requires_grad]. *)
Abbreviation heap := (gmap positive bool) (only parsing).

(** [param.requires_grad].  Every parameter that a module refers to is a
    live object with a cell of its own; an identity without a cell reads as
    not trainable. *)
Definition requires_grad (h : heap) (p : param) : bool :=
  default false (h !! p).

(** [for param in ps: param.requires_grad = v] *)
Definition set_requires_grad (v : bool) (ps : list param) (h : heap) : heap :=
  foldl (fun h p => <[p := v]> h) h ps.

Local Unset Elimination Schemes.

(** A [torch.nn.Module]: [bn_type] records [isinstance(module, BN_TYPES)],
    [training] is the train/eval mode, [_parameters] the parameters
    registered directly on the module and [_modules] its children in
    registration order. *)
Inductive Module : Type := MkModule {
  bn_type : bool;
  training : bool;
  _parameters : list param;
  _modules : list Module
}.

(** [list(module.children())] *)
Definition children (module : Module) : list Module := _modules module.

(** Parameters are yielded once each: [Module._named_members] keeps a
    memo set of the objects already seen and skips them. *)
Fixpoint memo_dedup (memo : gset positive) (l : list param) : list param :=
  match l with
  | [] => []
  | p :: r =>
      if decide (p ∈ memo) then memo_dedup memo r
      else p :: memo_dedup ({[p]} ∪ memo) r
  end.

(** The parameters met in a pre-order walk of the subtree. *)
Fixpoint subtree_parameters (module : Module) : list param :=
  _parameters module ++ flat_map subtree_parameters (_modules module).

(** [list(module.parameters())] (recursive, without repetition). *)
Definition parameters (module : Module) : list param :=
  memo_dedup ∅ (subtree_parameters module).

(** [module.train(mode)]: sets the mode of the module and of every
    descendant. *)
Fixpoint train (mode : bool) (module : Module) : Module :=
  {| bn_type := bn_type module;
     training := mode;
     _parameters := _parameters module;
     _modules := map (train mode) (_modules module) |}.

(** [module.eval()] is [module.train(False)]. *)
Definition eval (module : Module) : Module := train false module.

(** [for child in l: f(child)], the heap threaded through the calls; the
    children come back with whatever [f] changed in them. *)
Definition for_each (f : Module -> heap -> Module * heap) :
    list Module -> heap -> list Module * heap :=
  fix go (l : list Module) (h : heap) {struct l} :=
    match l with
    | [] => ([], h)
    | c :: r =>
        let '(c', h1) := f c h in
        let '(r', h2) := go r h1 in
        (c' :: r', h2)
    end.

(** A module whose children were replaced by their updated versions. *)
Definition with_children (module : Module) (cs : list Module) : Module :=
  {| bn_type := bn_type module;
     training := training module;
     _parameters := _parameters module;
     _modules := cs |}.

(** The leaves of a subtree, left to right. *)
Fixpoint leaves (module : Module) : list Module :=
  match _modules module with
  | [] => [module]
  | cs => flat_map leaves cs
  end.

(** Induction on the module tree: the children satisfy the property. *)
Fixpoint Module_ind (P : Module -> Prop)
    (step : forall bn tr ps cs, Forall P cs -> P (MkModule bn tr ps cs))
    (module : Module) {struct module} : P module :=
  match module with
  | MkModule bn tr ps cs =>
      step bn tr ps cs
        ((fix go (l : list Module) : Forall P l :=
            match l with
            | [] => List.Forall_nil P
            | c :: r => List.Forall_cons P c r (Module_ind P step c) (go r)
            end) cs)
  end.

(** [f] applied to every leaf of the subtree, the inner nodes kept. *)
Fixpoint map_leaves (f : Module -> Module) (module : Module) : Module :=
  match _modules module with
  | [] => f module
  | cs => with_children module (map (map_leaves f) cs)
  end.

(** A parameter group of an optimizer (the dict with keys ["params"] and
    ["lr"]) and the optimizer's ordered list of groups.  Learning rates are
    Python floats, that is binary64. *)
Record ParamGroup : Type := MkParamGroup {
  pg_params : list param;
  pg_lr : float
}.

Record Optimizer : Type := MkOptimizer {
  param_groups : list ParamGroup
}.

(** Modelled from the spec: [optimizer.add_param_group] belongs to the
    optimizer library, which is not part of the repository.  The spec's
    Optimizer "owns an ordered sequence of ParameterGroups" and "supports
    append group only": the group is appended after the existing ones. *)
Definition add_param_group (optimizer : Optimizer) (g : ParamGroup) : Optimizer :=
  {| param_groups := param_groups optimizer ++ [g] |}.

(** Exceptions.  [IndexError] is what [param_groups[0]] raises on an
    optimizer without groups; [InvalidStageTargetError] is the scheduler's. *)
Inductive exn : Type := IndexError | InvalidStageTargetError.

(** How a call ends.  An exception does not roll anything back: [Raise]
    carries the state as the call left it. *)
Inductive outcome (A : Type) : Type :=
| Ok (a : A)
| Raise (e : exn) (a : A).
Arguments Ok {A} a.
Arguments Raise {A} e a.

End Torch.

(** ** transfer_learning.py *)

Module TransferLearning.
Import PySlice Torch.

(** [_make_trainable(module)] *)
Definition _make_trainable (module : Module) (h : heap) : Module * heap :=
  let h := set_requires_grad true (parameters module) h in
  (train true module, h).

(** [_recursive_freeze(module, train_bn)] *)
Fixpoint _recursive_freeze (module : Module) (train_bn : bool) (h : heap)
    {struct module} : Module * heap :=
  match _modules module with
  | [] =>
      if negb (bn_type module && train_bn) then
        let h := set_requires_grad false (parameters module) h in
        (eval module, h)
      else
        _make_trainable module h
  | children =>
      let '(children, h) :=
        for_each (fun child => _recursive_freeze child train_bn) children h in
      (with_children module children, h)
  end.

(** [freeze(module, n, train_bn)] *)
Definition freeze (module : Module) (n : option Z) (train_bn : bool)
    (h : heap) : Module * heap :=
  let children := children module in
  let n_max := match n with
               | None => Z.of_nat (length children)
               | Some n => n
               end in
  let '(frozen, h) :=
    for_each (fun child => _recursive_freeze child train_bn)
             (slice_to children n_max) h in
  let '(thawed, h) :=
    for_each _make_trainable (slice_from children n_max) h in
  (with_children module (frozen ++ thawed), h).

(** [list(filter_params(module, train_bn))]: the generator is consumed
    in one go, against the heap as it is then. *)
Fixpoint filter_params (module : Module) (train_bn : bool) (h : heap)
    {struct module} : list param :=
  match _modules module with
  | [] =>
      if negb (bn_type module && train_bn) then
        List.filter (requires_grad h) (parameters module)
      else []
  | children =>
      flat_map (fun child => filter_params child train_bn h) children
  end.

(** [optimizer.param_groups[0]["lr"] if lr is None else float(lr)] *)
Definition base_lr (optimizer : Optimizer) (lr : option float) : option float :=
  match lr with
  | None => pg_lr <$> head (param_groups optimizer)
  | Some lr => Some lr
  end.

(** [_unfreeze_and_add_param_group(module, optimizer, lr, train_bn)] *)
Definition _unfreeze_and_add_param_group (module : Module)
    (optimizer : Optimizer) (lr : option float) (train_bn : bool) (h : heap)
    : outcome (Module * heap * Optimizer) :=
  let '(module, h) := _make_trainable module h in
  match base_lr optimizer lr with
  | None => Raise IndexError (module, h, optimizer)
  | Some params_lr =>
      let g := {| pg_params := filter_params module train_bn h;
                  pg_lr := (params_lr / 10)%float |} in
      Ok (module, h, add_param_group optimizer g)
  end.

(** The collector as the specification words it: the trainable parameters
    of the subtree's leaves, those of normalization leaves left out when
    [keep_norm_trainable] is false.  Compared with [filter_params] below. *)
Fixpoint collector_as_specified (unit : Module) (keep_norm_trainable : bool)
    (h : heap) {struct unit} : list param :=
  match _modules unit with
  | [] =>
      if bn_type unit && negb keep_norm_trainable then []
      else List.filter (requires_grad h) (parameters unit)
  | children =>
      flat_map (fun child => collector_as_specified child keep_norm_trainable h)
               children
  end.

End TransferLearning.

(** ** The stage scheduler *)

Module StageScheduler.
Import Torch TransferLearning.

Section Scheduler.

(** How a stage designates its subtree is left open by the specification:
    a selector either resolves, against the current network, to a subtree
    and the way to put the updated subtree back, or it does not resolve. *)
Context {selector : Type}.
Variable resolve : selector -> Module -> option (Module * (Module -> Module)).

(** The normalization policy the scheduler was configured with. *)
Variable keep_norm_trainable : bool.

(** Modelled from the spec: the scheduler is not in the source files.  A
    stage is a triple "(epoch_threshold, subtree_selector, lr_or_none)". *)
Record Stage : Type := MkStage {
  epoch_threshold : Z;
  subtree_selector : selector;
  lr_or_none : option float
}.

(** Modelled from the spec: the scheduler is not in the source files.  Its
    state is the network, the parameter heap, the optimizer and the
    "current stage pointer" into the schedule. *)
Record Scheduler : Type := MkScheduler {
  net : Module;
  flags : heap;
  optimizer : Optimizer;
  pointer : nat
}.

(** Modelled from the spec: the scheduler is not in the source files.
    "While the schedule's next un-fired threshold is <= current epoch index,
    invoke Parameter-Group Synchronizer on that threshold's designated
    subtree, advance the pointer, and continue"; an unresolved selector
    "fails fast with InvalidStageTargetError".  [pending] is the schedule
    from the pointer on. *)
Fixpoint fire (epoch : Z) (pending : list Stage) (s : Scheduler)
    {struct pending} : outcome Scheduler :=
  match pending with
  | [] => Ok s
  | stage :: pending =>
      if epoch_threshold stage <=? epoch then
        match resolve (subtree_selector stage) (net s) with
        | None => Raise InvalidStageTargetError s
        | Some (unit, plug) =>
            match _unfreeze_and_add_param_group unit (optimizer s)
                    (lr_or_none stage) keep_norm_trainable (flags s) with
            | Ok (unit, h, opt) =>
                fire epoch pending
                  {| net := plug unit; flags := h; optimizer := opt;
                     pointer := S (pointer s) |}
            | Raise e (unit, h, opt) =>
                Raise e
                  {| net := plug unit; flags := h; optimizer := opt;
                     pointer := pointer s |}
            end
        end
      else Ok s
  end.

(** Modelled from the spec: the scheduler is not in the source files.
    [on_epoch_end(epoch_index)], "the sole entry point". *)
Definition on_epoch_end (schedule : list Stage) (epoch : Z) (s : Scheduler)
    : outcome Scheduler :=
  fire epoch (drop (pointer s) schedule) s.

(** Modelled from the spec: the scheduler is not in the source files.  A
    run of the training loop: [on_epoch_end] called with each epoch index
    in turn, stopping at the first exception. *)
Fixpoint run (schedule : list Stage) (epochs : list Z) (s : Scheduler)
    {struct epochs} : outcome Scheduler :=
  match epochs with
  | [] => Ok s
  | e :: epochs =>
      match on_epoch_end schedule e s with
      | Ok s => run schedule epochs s
      | Raise x s => Raise x s
      end
  end.

End Scheduler.

(** A selector that names a top-level child of the network by its index. *)
Definition resolve_child (i : nat) (root : Module)
    : option (Module * (Module -> Module)) :=
  match children root !! i with
  | Some c => Some (c, fun c' => with_children root (<[i := c']> (children root)))
  | None => None
  end.

End StageScheduler.

(** ** Vocabulary of the statements *)

Module Post.
Import Torch TransferLearning.

(** Whether the freeze leaves a leaf trainable: a normalization leaf under
    [train_bn]. *)
Definition kept (train_bn : bool) (leaf : Module) : bool :=
  bn_type leaf && train_bn.

(** The flags after the recursive freeze has visited one leaf. *)
Definition freeze_leaf (train_bn : bool) (h : heap) (leaf : Module) : heap :=
  set_requires_grad (kept train_bn leaf) (parameters leaf) h.

(** The flags after [_make_trainable] has visited one module. *)
Definition thaw (h : heap) (module : Module) : heap :=
  set_requires_grad true (parameters module) h.

(** Number of groups of the optimizer that hold the parameter, a group
    counted as often as it lists the parameter. *)
Definition memberships (optimizer : Optimizer) (p : param) : nat :=
  length (List.filter (Pos.eqb p) (flat_map pg_params (param_groups optimizer))).


End Post.

(** ** scripts/generate_env.py *)

Module GenerateEnv.

(** A Python [str] over the code points below 256, one [ascii] each. *)
Abbreviation str := (list ascii) (only parsing).

(** A string literal of the source. *)
Definition lit (s : string) : str := String.list_ascii_of_string s.

(** [c.isspace()], which decides what [str.strip()] removes: the code
    points 9 to 13, 28 to 32, 133 and 160. *)
Definition isspace (c : ascii) : bool :=
  let n := Ascii.nat_of_ascii c in
  ((9 <=? n) && (n <=? 13) || (28 <=? n) && (n <=? 32)
   || (n =? 133) || (n =? 160))%nat.

(** [s.lstrip()] *)
Fixpoint lstrip (s : str) : str :=
  match s with
  | [] => []
  | c :: r => if isspace c then lstrip r else s
  end.

(** [s.rstrip()] *)
Definition rstrip (s : str) : str := rev (lstrip (rev s)).

(** [s.strip()] *)
Definition strip (s : str) : str := rstrip (lstrip s).

(** [s.split(sep)] for a separator of one character: the pieces between
    the occurrences of [sep], empty pieces included; never an empty list. *)
Fixpoint split (sep : ascii) (s : str) : list str :=
  match s with
  | [] => [[]]
  | c :: r =>
      if decide (c = sep) then [] :: split sep r
      else match split sep r with
           | piece :: pieces => (c :: piece) :: pieces
           | [] => [[c]]
           end
  end.

(** [sep.join(pieces)] *)
Fixpoint join (sep : str) (pieces : list str) : str :=
  match pieces with
  | [] => []
  | [piece] => piece
  | piece :: pieces => piece ++ sep ++ join sep pieces
  end.

(** A Python [dict] from [str] to [str]: the items in insertion order, no
    key twice. *)
Abbreviation dict := (list (list ascii * list ascii)) (only parsing).

(** [d[key] = value]: a key that is present keeps its place. *)
Fixpoint setitem (d : dict) (key value : str) : dict :=
  match d with
  | [] => [(key, value)]
  | (k, v) :: r =>
      if decide (k = key) then (k, value) :: r
      else (k, v) :: setitem r key value
  end.

(** [d.get(key, default)] *)
Fixpoint get (d : dict) (key default : str) : str :=
  match d with
  | [] => default
  | (k, v) :: r => if decide (k = key) then v else get r key default
  end.

(** [d.update(other)] *)
Definition update (d other : dict) : dict :=
  foldl (fun d item => setitem d item.1 item.2) d other.

(** How a call that may raise [ValueError] ends. *)
Inductive result (A : Type) : Type :=
| Return (a : A)
| ValueError.
Arguments Return {A} a.
Arguments ValueError {A}.

(** The loop of [_decode_dotenv] from the dictionary built so far.  The
    unpacking [key, value = ...] raises [ValueError] unless the split gives
    exactly two pieces. *)
Fixpoint decode_lines (env_data : dict) (lines : list str) : result dict :=
  match lines with
  | [] => Return env_data
  | line :: lines =>
      match split "=" (strip line) with
      | [key; value] => decode_lines (setitem env_data key value) lines
      | _ => ValueError
      end
  end.

(** [_decode_dotenv(env_file)], on the lines that [env_file.readlines()]
    returns. *)
Definition _decode_dotenv (lines : list str) : result dict :=
  decode_lines [] lines.

(** [[f'{k}={v}' for k, v in env_data.items()]] *)
Definition dotenv_lines (env_data : dict) : list str :=
  map (fun item => item.1 ++ lit "=" ++ item.2) env_data.

(** [_encode_dotenv(env_data, env_file)]: the text handed to
    [env_file.write].  [linesep] is [os.linesep]. *)
Definition _encode_dotenv (linesep : str) (env_data : dict) : str :=
  join linesep (dotenv_lines env_data).

(** The two dictionaries the script has built when it starts writing, from
    the lines of [env-backend.env], [env-mongodb.env] and
    [env-frontend.env].  The defaults [8000] and [3333] are integers that
    the f-strings format in decimal. *)
Definition merged_env (backend mongodb frontend : list str)
    : result (dict * dict) :=
  match _decode_dotenv backend with
  | ValueError => ValueError
  | Return env =>
      let backend_env := update [] env in
      match _decode_dotenv mongodb with
      | ValueError => ValueError
      | Return env =>
          let backend_env := update backend_env env in
          match _decode_dotenv frontend with
          | ValueError => ValueError
          | Return env =>
              let frontend_env := update [] env in
              let backend_url :=
                get backend_env (lit "SERVER_HOST") (lit "http://localhost")
                ++ lit ":" ++ get backend_env (lit "SERVER_PORT") (lit "8000") in
              let frontend_url :=
                get frontend_env (lit "HOST") (lit "http://localhost")
                ++ lit ":" ++ get frontend_env (lit "PORT") (lit "3333") in
              let cors_origins :=
                get backend_env (lit "BACKEND_CORS_ORIGINS") (lit "") in
              let backend_env :=
                setitem backend_env (lit "BACKEND_CORS_ORIGINS")
                        (join (lit ",") [cors_origins; frontend_url]) in
              let frontend_env :=
                setitem frontend_env (lit "REACT_APP_BACKEND_URL") backend_url in
              Return (backend_env, frontend_env)
          end
      end
  end.

(** [env_file.readlines()] on a file opened for reading in text mode with
    the default [newline=None], as a function of the file's text: a line
    ends at ["\n"], ["\r\n"] or ["\r"], each given back as ["\n"] at the
    end of the line; a last line without line end is given back as it is.
    [line] holds the characters of the current line, last one first. *)
Fixpoint readlines_from (line : str) (text : str) {struct text} : list str :=
  match text with
  | [] => match line with [] => [] | _ => [rev line] end
  | c :: rest =>
      if decide (c = "010"%char) then
        rev (c :: line) :: readlines_from [] rest
      else if decide (c = "013"%char) then
        match rest with
        | c' :: rest' =>
            if decide (c' = "010"%char)
            then rev ("010"%char :: line) :: readlines_from [] rest'
            else rev ("010"%char :: line) :: readlines_from [] rest
        | [] => [rev ("010"%char :: line)]
        end
      else readlines_from (c :: line) rest
  end.

Definition readlines (text : str) : list str := readlines_from [] text.

(** A dictionary that a dotenv file can hold as it is: no key twice, no
    ["="] in a key or a value, no white space in front of a key or behind
    a value. *)
Definition dotenv_clean (env_data : dict) : Prop :=
  NoDup env_data.*1
  /\ Forall (fun item =>
               ("="%char ∉ item.1) /\ ("="%char ∉ item.2)
               /\ lstrip item.1 = item.1 /\ rstrip item.2 = item.2)
            env_data.

End GenerateEnv.

(** ** The optimizer of the Lightning module *)

Module FineTune.
Import Torch.

(** [FineTuneModule.configure_optimizers], as far as the optimizer goes:
    [optim.Adam(filter(lambda p: p.requires_grad, self.parameters()),
    lr=self.lr)], one group over the parameters of the module that require
    grad.  The optimizer library raises [ValueError], which is [None]
    here, in two cases: Adam checks [0.0 <= lr] first, which a negative
    rate and NaN fail, and the optimizer then refuses an empty parameter
    list.  The other settings of Adam keep their defaults, which pass its
    checks.  The [StepLR] scheduler built next reads the optimizer and
    leaves the parameters and the rate of the group as they are. *)
Definition configure_optimizers (self : Module) (lr : float) (h : heap)
    : option Optimizer :=
  if (0 <=? lr)%float then
    match List.filter (requires_grad h) (parameters self) with
    | [] => None
    | params => Some {| param_groups := [{| pg_params := params; pg_lr := lr |}] |}
    end
  else None.

End FineTune.

(** ** Flag assignments *)

Module Writes.
Import Torch.

(** A sequence of assignments [for param in ps: param.requires_grad = v],
    run in order. *)
Definition assign (ws : list (list param * bool)) (h : heap) : heap :=
  foldl (fun h w => set_requires_grad w.2 w.1 h) h ws.

End Writes.

(** ** Stage processing *)

Module Stages.
Import Torch TransferLearning.



End Stages.

(** * Properties *)

Import PySlice Torch TransferLearning StageScheduler Post.

(** ** The functions run on small inputs *)

Example slice_to_clamps_and_wraps :
  slice_to [10; 20; 30] 2 = [10; 20]
  /\ slice_to [10; 20; 30] 5 = [10; 20; 30]
  /\ slice_to [10; 20; 30] (-1) = [10; 20]
  /\ slice_to [10; 20; 30] (-7) = [].
Proof. repeat split. Qed.

Example slice_from_clamps_and_wraps :
  slice_from [10; 20; 30] 2 = [30]
  /\ slice_from [10; 20; 30] 5 = []
  /\ slice_from [10; 20; 30] (-1) = [30]
  /\ slice_from [10; 20; 30] (-7) = [10; 20; 30].
Proof. repeat split. Qed.

(** A parameter registered on two modules is yielded once, where the
    pre-order walk meets it first. *)
Example parameters_of_tied_weights :
  parameters (MkModule false true [4%positive]
                [MkModule false true [1%positive; 2%positive] [];
                 MkModule false true [2%positive; 1%positive; 3%positive] []])
  = [4%positive; 1%positive; 2%positive; 3%positive].
Proof. vm_compute. reflexivity. Qed.

(** Three children [A; B; C], [B] a normalization leaf, everything
    trainable at first.  [freeze(net, 1)] freezes [A] only;
    [freeze(net)] freezes all three, or keeps [B] under [train_bn]. *)
Example freeze_three_children :
  let net := MkModule false true []
               [MkModule false true [1%positive] [];
                MkModule true true [2%positive] [];
                MkModule false true [3%positive] []] in
  let h : gmap positive bool :=
    <[3%positive := true]> (<[2%positive := true]> (<[1%positive := true]> ∅)) in
  freeze net (Some 1) true h
  = (MkModule false true []
       [MkModule false false [1%positive] [];
        MkModule true true [2%positive] [];
        MkModule false true [3%positive] []],
     <[3%positive := true]> (<[2%positive := true]> (<[1%positive := false]> ∅)))
  /\ freeze net None false h
     = (MkModule false true []
          [MkModule false false [1%positive] [];
           MkModule true false [2%positive] [];
           MkModule false false [3%positive] []],
        <[3%positive := false]> (<[2%positive := false]> (<[1%positive := false]> ∅)))
  /\ freeze net None true h
     = (MkModule false true []
          [MkModule false false [1%positive] [];
           MkModule true true [2%positive] [];
           MkModule false false [3%positive] []],
        <[3%positive := false]> (<[2%positive := true]> (<[1%positive := false]> ∅))).
Proof. repeat split; vm_compute; reflexivity. Qed.

(** ** Flags written by a loop over parameters *)

Section Flags.
Implicit Types (h : gmap positive bool) (ps : list positive) (p : positive).

Lemma set_requires_grad_cons v p ps h :
  set_requires_grad v (p :: ps) h = set_requires_grad v ps (<[p := v]> h).
Proof. reflexivity. Qed.

Lemma lookup_set_requires_grad_notin v ps h p :
  p ∉ ps -> set_requires_grad v ps h !! p = h !! p.
Proof.
  revert h. induction ps as [|q ps IH]; intros h Hp; [done|].
  rewrite set_requires_grad_cons, IH by set_solver.
  apply lookup_insert_ne. set_solver.
Qed.

Lemma lookup_set_requires_grad_in v ps h p :
  p ∈ ps -> set_requires_grad v ps h !! p = Some v.
Proof.
  revert h. induction ps as [|q ps IH]; intros h Hp; [set_solver|].
  rewrite set_requires_grad_cons.
  destruct (decide (p ∈ ps)) as [Hin|Hout]; [by apply IH|].
  rewrite lookup_set_requires_grad_notin by done.
  assert (p = q) as -> by set_solver. apply lookup_insert_eq.
Qed.

Lemma requires_grad_set_in v ps h p :
  p ∈ ps -> requires_grad (set_requires_grad v ps h) p = v.
Proof. intros Hp. unfold requires_grad. by rewrite lookup_set_requires_grad_in. Qed.

Lemma requires_grad_set_notin v ps h p :
  p ∉ ps -> requires_grad (set_requires_grad v ps h) p = requires_grad h p.
Proof. intros Hp. unfold requires_grad. by rewrite lookup_set_requires_grad_notin. Qed.

End Flags.

(** ** [parameters] yields each parameter of the subtree once *)

Lemma elem_of_memo_dedup memo (l : list positive) p :
  p ∈ memo_dedup memo l <-> p ∈ l /\ p ∉ memo.
Proof.
  revert memo. induction l as [|q l IH]; intros memo; simpl.
  - set_solver.
  - destruct (decide (q ∈ memo)).
    + rewrite IH. set_solver.
    + rewrite elem_of_cons, IH. destruct (decide (p = q)); set_solver.
Qed.

Lemma NoDup_memo_dedup memo (l : list positive) : NoDup (memo_dedup memo l).
Proof.
  revert memo. induction l as [|q l IH]; intros memo; simpl.
  - constructor.
  - destruct (decide (q ∈ memo)); [apply IH|].
    constructor; [|apply IH].
    rewrite elem_of_memo_dedup. set_solver.
Qed.

Lemma elem_of_parameters module p :
  p ∈ parameters module <-> p ∈ subtree_parameters module.
Proof. unfold parameters. rewrite elem_of_memo_dedup. set_solver. Qed.

Lemma NoDup_parameters module : NoDup (parameters module).
Proof. apply NoDup_memo_dedup. Qed.

Lemma subtree_parameters_eq module :
  subtree_parameters module =
  _parameters module ++ flat_map subtree_parameters (_modules module).
Proof. by destruct module. Qed.

Lemma elem_of_flat_map_list {A B} (f : A -> list B) (l : list A) (y : B) :
  y ∈ flat_map f l <-> exists x, x ∈ l /\ y ∈ f x.
Proof.
  rewrite list_elem_of_In, in_flat_map.
  split; intros (x & ? & ?); exists x; by rewrite ?list_elem_of_In in *.
Qed.

(** The parameters of a child are parameters of the parent. *)
Lemma parameters_child module child p :
  child ∈ children module -> p ∈ parameters child -> p ∈ parameters module.
Proof.
  rewrite !elem_of_parameters, (subtree_parameters_eq module), elem_of_app.
  intros Hc Hp. right. apply elem_of_flat_map_list. by exists child.
Qed.

(** ** Loops over children *)

Lemma for_each_cons f c r (h : gmap positive bool) :
  for_each f (c :: r) h =
  (fst (f c h) :: fst (for_each f r (snd (f c h))),
   snd (for_each f r (snd (f c h)))).
Proof.
  simpl. destruct (f c h) as [c' h1]; simpl.
  by destruct (for_each f r h1).
Qed.

Lemma for_each_app f l1 l2 (h : gmap positive bool) :
  for_each f (l1 ++ l2) h =
  (fst (for_each f l1 h) ++ fst (for_each f l2 (snd (for_each f l1 h))),
   snd (for_each f l2 (snd (for_each f l1 h)))).
Proof.
  revert h. induction l1 as [|c l1 IH]; intros h.
  - simpl. by destruct (for_each f l2 h).
  - rewrite <- app_comm_cons, !for_each_cons, IH. reflexivity.
Qed.

(** A loop whose body acts on the module and on the flags separately. *)
Lemma for_each_split f (g : Module -> Module)
    (w : gmap positive bool -> Module -> gmap positive bool) l h :
  Forall (fun c => forall h, f c h = (g c, w h c)) l ->
  for_each f l h = (map g l, foldl w h l).
Proof.
  intros Hl. revert h. induction Hl as [|c r Hc _ IH]; intros h; [done|].
  rewrite for_each_cons, Hc, IH. reflexivity.
Qed.

Lemma make_trainable_split module h :
  _make_trainable module h = (train true module, thaw h module).
Proof. reflexivity. Qed.

Lemma for_each_make_trainable l h :
  for_each _make_trainable l h = (map (train true) l, foldl thaw h l).
Proof. apply for_each_split, Forall_forall. intros c _ h'. reflexivity. Qed.

Lemma foldl_flat_map {A B C} (w : A -> B -> A) (f : C -> list B) l a :
  foldl w a (flat_map f l) = foldl (fun a c => foldl w a (f c)) a l.
Proof.
  revert a. induction l as [|c l IH]; intros a; [done|].
  simpl. by rewrite foldl_app, IH.
Qed.

(** The recursive freeze is one pass over the leaves of the subtree, left
    to right; on the way it changes the mode of the leaves only. *)
Lemma recursive_freeze_split module train_bn h :
  _recursive_freeze module train_bn h =
  (map_leaves (fun leaf => train (kept train_bn leaf) leaf) module,
   foldl (freeze_leaf train_bn) h (leaves module)).
Proof.
  revert h. induction module as [bn tr ps cs IH] using Module_ind; intros h.
  destruct cs as [|c cs].
  - unfold freeze_leaf, kept; simpl.
    destruct (bn && train_bn); reflexivity.
  - change (_recursive_freeze (MkModule bn tr ps (c :: cs)) train_bn h)
      with (let '(children, h) :=
              for_each (fun child => _recursive_freeze child train_bn) (c :: cs) h in
            (with_children (MkModule bn tr ps (c :: cs)) children, h)).
    rewrite (for_each_split _
               (map_leaves (fun leaf => train (kept train_bn leaf) leaf))
               (fun h c => foldl (freeze_leaf train_bn) h (leaves c))).
    + change (leaves (MkModule bn tr ps (c :: cs)))
        with (flat_map leaves (c :: cs)).
      rewrite foldl_flat_map. reflexivity.
    + eapply Forall_impl; [exact IH|]. intros x Hx h'. apply Hx.
Qed.

Lemma for_each_recursive_freeze train_bn l h :
  for_each (fun child => _recursive_freeze child train_bn) l h =
  (map (map_leaves (fun leaf => train (kept train_bn leaf) leaf)) l,
   foldl (freeze_leaf train_bn) h (flat_map leaves l)).
Proof.
  rewrite foldl_flat_map.
  apply for_each_split, Forall_forall. intros c _ h'.
  apply recursive_freeze_split.
Qed.

(** ** What a pass over leaves or children writes *)

Lemma foldl_freeze_leaf_frame train_bn ls h p :
  (forall leaf, leaf ∈ ls -> p ∉ parameters leaf) ->
  foldl (freeze_leaf train_bn) h ls !! p = h !! p.
Proof.
  revert h. induction ls as [|l ls IH]; intros h Hp; [done|].
  simpl. rewrite IH by (intros; apply Hp; set_solver).
  apply lookup_set_requires_grad_notin, Hp. set_solver.
Qed.

Lemma foldl_thaw_frame ls h p :
  (forall c, c ∈ ls -> p ∉ parameters c) -> foldl thaw h ls !! p = h !! p.
Proof.
  revert h. induction ls as [|l ls IH]; intros h Hp; [done|].
  simpl. rewrite IH by (intros; apply Hp; set_solver).
  apply lookup_set_requires_grad_notin, Hp. set_solver.
Qed.

(** The last leaf that holds a parameter decides its flag. *)
Lemma foldl_freeze_leaf_last train_bn before leaf after h p :
  p ∈ parameters leaf ->
  (forall l, l ∈ after -> p ∉ parameters l) ->
  foldl (freeze_leaf train_bn) h (before ++ leaf :: after) !! p
  = Some (kept train_bn leaf).
Proof.
  intros Hp Hafter. rewrite foldl_app. simpl.
  rewrite foldl_freeze_leaf_frame by done.
  by apply lookup_set_requires_grad_in.
Qed.

(** Thawing never clears a flag. *)
Lemma foldl_thaw_keeps ls h p :
  h !! p = Some true -> foldl thaw h ls !! p = Some true.
Proof.
  revert h. induction ls as [|l ls IH]; intros h Hp; [done|].
  simpl. apply IH. unfold thaw.
  destruct (decide (p ∈ parameters l)).
  - by apply lookup_set_requires_grad_in.
  - by rewrite lookup_set_requires_grad_notin.
Qed.

Lemma foldl_thaw_in ls h c p :
  c ∈ ls -> p ∈ parameters c -> foldl thaw h ls !! p = Some true.
Proof.
  revert h. induction ls as [|l ls IH]; intros h Hc Hp; [set_solver|].
  simpl. apply elem_of_cons in Hc as [->|Hc]; [|by apply IH].
  apply foldl_thaw_keeps. by apply lookup_set_requires_grad_in.
Qed.

(** The parameters of a leaf of the subtree are parameters of the subtree. *)
Lemma leaves_parameters module leaf p :
  leaf ∈ leaves module -> p ∈ parameters leaf -> p ∈ parameters module.
Proof.
  revert leaf. induction module as [bn tr ps cs IH] using Module_ind.
  intros leaf Hl Hp. destruct cs as [|c cs].
  - simpl in Hl. by apply list_elem_of_singleton in Hl as ->.
  - change (leaves (MkModule bn tr ps (c :: cs)))
      with (flat_map leaves (c :: cs)) in Hl.
    apply elem_of_flat_map_list in Hl as (x & Hx & Hl).
    apply (parameters_child _ x); [exact Hx|].
    rewrite Forall_forall in IH. by apply (IH x Hx leaf).
Qed.

(** C2: [_recursive_freeze] with flag [train_bn].  On a leaf: a
    normalization leaf under [train_bn = true] gets every parameter
    trainable and is put in training mode, any other leaf gets every
    parameter frozen and is put in evaluation mode.  On a module with
    children: it runs on each child in turn with the same flag and changes
    neither the mode nor the own parameter list of the module.  Over the
    whole subtree this is one pass over the leaves: the modes of the leaves
    are the only modes that change, and a parameter that no leaf holds
    keeps its flag. *)
Theorem recursive_freeze_leaves_only :
  (forall bn tr ps train_bn h,
     let leaf := MkModule bn tr ps [] in
     _recursive_freeze leaf train_bn h =
       if bn && train_bn
       then (MkModule bn true ps [], set_requires_grad true (parameters leaf) h)
       else (MkModule bn false ps [], set_requires_grad false (parameters leaf) h))
  /\ (forall bn tr ps train_bn h,
        let leaf := MkModule bn tr ps [] in
        Forall (fun p => requires_grad (snd (_recursive_freeze leaf train_bn h)) p
                         = bn && train_bn) ps)
  /\ (forall bn tr ps c cs train_bn h,
        let loop := for_each (fun child => _recursive_freeze child train_bn)
                             (c :: cs) h in
        _recursive_freeze (MkModule bn tr ps (c :: cs)) train_bn h =
          (MkModule bn tr ps (fst loop), snd loop))
  /\ (forall module train_bn h,
        _recursive_freeze module train_bn h =
          (map_leaves (fun leaf => train (bn_type leaf && train_bn) leaf) module,
           foldl (fun h leaf =>
                    set_requires_grad (bn_type leaf && train_bn)
                                      (parameters leaf) h)
                 h (leaves module)))
  /\ (forall module train_bn h p,
        (forall leaf, leaf ∈ leaves module -> p ∉ parameters leaf) ->
        snd (_recursive_freeze module train_bn h) !! p = h !! p).
Proof.
  repeat split.
  - intros bn tr ps train_bn h. simpl. by destruct (bn && train_bn).
  - intros bn tr ps train_bn h leaf. apply Forall_forall. intros p Hp.
    rewrite recursive_freeze_split. unfold leaf, freeze_leaf, kept. simpl.
    apply requires_grad_set_in, elem_of_parameters. simpl. set_solver.
  - intros bn tr ps c cs train_bn h. simpl.
    destruct (_recursive_freeze c train_bn h) as [c' h1].
    by destruct (for_each _ cs h1).
  - intros. apply recursive_freeze_split.
  - intros module train_bn h p Hp. rewrite recursive_freeze_split. simpl.
    by apply foldl_freeze_leaf_frame.
Qed.

(** C2 on a network of two leaves, one of them a normalization leaf: the
    parameter registered on the root keeps its flag. *)
Lemma recursive_freeze_leaves_only_witness :
  let net := MkModule false true [1%positive]
               [MkModule false true [2%positive] [];
                MkModule true true [3%positive] []] in
  let h : gmap positive bool :=
    <[3%positive := true]> (<[2%positive := true]> (<[1%positive := true]> ∅)) in
  snd (_recursive_freeze net true h) !! 1%positive = h !! 1%positive.
Proof.
  intros net h.
  apply (proj2 (proj2 (proj2 (proj2 recursive_freeze_leaves_only)))).
  intros leaf Hl. cbn in Hl.
  rewrite !elem_of_cons in Hl. destruct Hl as [->|[->|Hl]].
  - rewrite elem_of_parameters. cbn. rewrite list_elem_of_singleton. discriminate.
  - rewrite elem_of_parameters. cbn. rewrite list_elem_of_singleton. discriminate.
  - by apply not_elem_of_nil in Hl.
Defined.

(** ** Slices *)

Lemma adjust_index_nonneg len k :
  0 <= k -> adjust_index len k = Nat.min (Z.to_nat k) len.
Proof.
  intros Hk. unfold adjust_index.
  destruct (Z.ltb_spec k 0); lia.
Qed.

Lemma adjust_index_neg len k :
  k < 0 -> adjust_index len k = Z.to_nat (Z.max (Z.of_nat len + k) 0).
Proof.
  intros Hk. unfold adjust_index.
  destruct (Z.ltb_spec k 0); [f_equal|]; lia.
Qed.

Lemma adjust_index_length len : adjust_index len (Z.of_nat len) = len.
Proof. rewrite adjust_index_nonneg; lia. Qed.

(** The two loops of [freeze] split the children at one index. *)
Lemma freeze_at_index module n train_bn h :
  let cs := children module in
  let i := adjust_index (length cs)
             (match n with None => Z.of_nat (length cs) | Some k => k end) in
  let frozen := for_each (fun child => _recursive_freeze child train_bn)
                         (take i cs) h in
  let thawed := for_each _make_trainable (drop i cs) (snd frozen) in
  freeze module n train_bn h
  = (with_children module (fst frozen ++ fst thawed), snd thawed).
Proof.
  intros cs i frozen thawed. unfold freeze, slice_to, slice_from.
  fold cs. fold i. fold frozen.
  destruct frozen as [fr h1] eqn:E1. simpl in thawed. fold thawed.
  by destruct thawed.
Qed.

(** C1: [freeze(module, n, train_bn)] with [n] absent or a non-negative
    integer.  With [n_max] the number of children when [n] is absent and
    [n] clamped to the number of children otherwise, the recursive freeze
    runs on exactly the first [n_max] children and [_make_trainable] on
    every remaining child.  Without [n] every child is frozen and none is
    thawed; with [n = 0] no child is frozen and every child is made
    trainable.  Afterwards every parameter of a remaining child is
    trainable and the child is in training mode; a parameter of a leaf of
    the first [n_max] children has the flag its last such leaf gives it
    (trainable exactly for a kept normalization leaf), unless a remaining
    child holds it too. *)
Theorem freeze_prefix module (n : option Z) train_bn h :
  match n with Some k => 0 <= k | None => True end ->
  let cs := children module in
  let n_max := match n with
               | None => length cs
               | Some k => Nat.min (Z.to_nat k) (length cs)
               end in
  let frozen := for_each (fun child => _recursive_freeze child train_bn)
                         (take n_max cs) h in
  let thawed := for_each _make_trainable (drop n_max cs) (snd frozen) in
  let after := freeze module n train_bn h in
  after = (with_children module (fst frozen ++ fst thawed), snd thawed)
  /\ length (fst frozen) = n_max
  /\ fst frozen
     = map (map_leaves (fun leaf => train (bn_type leaf && train_bn) leaf))
           (take n_max cs)
  /\ fst thawed = map (train true) (drop n_max cs)
  /\ (n = None -> take n_max cs = cs /\ drop n_max cs = [])
  /\ (n = Some 0 ->
        take n_max cs = [] /\ drop n_max cs = cs /\
        after = (with_children module (map (train true) cs), foldl thaw h cs))
  /\ Forall (fun child =>
               Forall (fun p => requires_grad (snd after) p = true)
                      (parameters child))
            (drop n_max cs)
  /\ (forall before leaf later p,
        flat_map leaves (take n_max cs) = before ++ leaf :: later ->
        p ∈ parameters leaf ->
        (forall l, l ∈ later -> p ∉ parameters l) ->
        (forall c, c ∈ drop n_max cs -> p ∉ parameters c) ->
        snd after !! p = Some (bn_type leaf && train_bn)).
Proof.
  intros Hn cs n_max frozen thawed after.
  assert (adjust_index (length cs)
            (match n with None => Z.of_nat (length cs) | Some k => k end)
          = n_max) as Hidx.
  { unfold n_max. destruct n as [k|].
    - by apply adjust_index_nonneg.
    - apply adjust_index_length. }
  assert (after = (with_children module (fst frozen ++ fst thawed), snd thawed))
    as Hafter.
  { unfold after. rewrite freeze_at_index. fold cs. rewrite Hidx. reflexivity. }
  assert (frozen =
          (map (map_leaves (fun leaf => train (kept train_bn leaf) leaf))
               (take n_max cs),
           foldl (freeze_leaf train_bn) h (flat_map leaves (take n_max cs))))
    as Hfrozen by apply for_each_recursive_freeze.
  assert (thawed =
          (map (train true) (drop n_max cs),
           foldl thaw (snd frozen) (drop n_max cs)))
    as Hthawed by apply for_each_make_trainable.
  assert (n_max <= length cs)%nat as Hle by (unfold n_max; destruct n; lia).
  split; [exact Hafter|].
  split; [rewrite Hfrozen; simpl; rewrite length_map, length_take; lia|].
  split; [by rewrite Hfrozen|].
  split; [by rewrite Hthawed|].
  split.
  { intros ->. unfold n_max. by rewrite firstn_all, drop_all. }
  split.
  { intros ->. unfold n_max. simpl. repeat split.
    rewrite Hafter, Hfrozen, Hthawed. reflexivity. }
  split.
  - apply Forall_forall. intros c Hc. apply Forall_forall. intros p Hp.
    rewrite Hafter, Hthawed. simpl. unfold requires_grad.
    by rewrite (foldl_thaw_in _ _ c p).
  - intros before leaf later p Hsplit Hp Hlater Hrest.
    rewrite Hafter, Hthawed. simpl.
    rewrite foldl_thaw_frame by done.
    rewrite Hfrozen. simpl. rewrite Hsplit.
    by apply foldl_freeze_leaf_last.
Qed.

(** C1 on the scenario of three children [A; B; C] with [n = 1]: the
    parameters of [B] and [C] end up trainable. *)
Lemma freeze_prefix_witness :
  let net := MkModule false true []
               [MkModule false true [1%positive] [];
                MkModule false true [2%positive] [];
                MkModule false true [3%positive] []] in
  let h : gmap positive bool :=
    <[3%positive := false]> (<[2%positive := false]> (<[1%positive := true]> ∅)) in
  0 <= 1 /\
  Forall (fun child =>
            Forall (fun p => requires_grad (snd (freeze net (Some 1) false h)) p = true)
                   (parameters child))
         (drop 1 (children net)).
Proof.
  intros net h. assert (0 <= 1) as H by lia.
  split; [exact H|].
  exact (proj1 (proj2 (proj2 (proj2 (proj2 (proj2 (proj2
           (freeze_prefix net (Some 1) false h H)))))))).
Defined.



(** C5 as stated fails: with [n = -1] on two children that are both
    trainable, [freeze] returns (there is no error to raise) and the first
    child's parameter is frozen by the call. *)
Lemma freeze_negative_changes_flags :
  let net := MkModule false true []
               [MkModule false true [1%positive] [];
                MkModule false true [2%positive] []] in
  let h : gmap positive bool := <[2%positive := true]> (<[1%positive := true]> ∅) in
  requires_grad h 1%positive = true /\
  requires_grad (snd (freeze net (Some (-1)) false h)) 1%positive = false /\
  map training (children (fst (freeze net (Some (-1)) false h))) = [false; true].
Proof. vm_compute. repeat split. Qed.

(** C5, amended: a negative [n] is not rejected.  On a module with [c]
    children, [freeze] with [n < 0] does what it does with the
    non-negative [max(c + n, 0)]. *)
Theorem freeze_negative_as_nonneg module (n : Z) train_bn h :
  n < 0 ->
  freeze module (Some n) train_bn h
  = freeze module (Some (Z.max (Z.of_nat (length (children module)) + n) 0))
           train_bn h.
Proof.
  intros Hn. rewrite !freeze_at_index. simpl.
  rewrite adjust_index_neg by done.
  rewrite adjust_index_nonneg by lia.
  replace (Nat.min (Z.to_nat (Z.max (Z.of_nat (length (children module)) + n) 0))
                   (length (children module)))
    with (Z.to_nat (Z.max (Z.of_nat (length (children module)) + n) 0)) by lia.
  reflexivity.
Qed.

Lemma freeze_negative_as_nonneg_witness :
  let net := MkModule false true []
               [MkModule false true [1%positive] [];
                MkModule false true [2%positive] []] in
  let h : gmap positive bool :=
    <[2%positive := true]> (<[1%positive := true]> ∅) in
  -1 < 0 /\
  freeze net (Some (-1)) true h = freeze net (Some 1) true h.
Proof.
  intros net h. assert (-1 < 0) as H by lia.
  split; [exact H|].
  exact (freeze_negative_as_nonneg net (-1) true h H).
Defined.

(** C10: whatever [n] is, [freeze] leaves the flag of a parameter that no
    child holds as it was, and changes neither the mode nor the own
    parameters of the root: only what the children reach is written. *)
Theorem freeze_root_untouched module (n : option Z) train_bn h p :
  (forall child, child ∈ children module -> p ∉ parameters child) ->
  let after := freeze module n train_bn h in
  snd after !! p = h !! p
  /\ training (fst after) = training module
  /\ _parameters (fst after) = _parameters module
  /\ bn_type (fst after) = bn_type module.
Proof.
  intros Hp after. unfold after. rewrite freeze_at_index. simpl.
  repeat split.
  rewrite for_each_make_trainable, for_each_recursive_freeze. simpl.
  rewrite foldl_thaw_frame.
  - apply foldl_freeze_leaf_frame. intros leaf Hleaf Hin.
    apply elem_of_flat_map_list in Hleaf as (c & Hc & Hleaf).
    apply (Hp c); [by eapply subseteq_take|].
    by eapply leaves_parameters.
  - intros c Hc. apply Hp. by eapply subseteq_drop.
Qed.

(** C10 on a root that holds parameter 1 itself, frozen beforehand. *)
Lemma freeze_root_untouched_witness :
  let net := MkModule false false [1%positive]
               [MkModule false true [2%positive] [];
                MkModule true true [3%positive] []] in
  let h : gmap positive bool := <[1%positive := false]> ∅ in
  snd (freeze net (Some 1) true h) !! 1%positive = h !! 1%positive
  /\ training (fst (freeze net (Some 1) true h)) = training net.
Proof.
  intros net h.
  assert (forall child, child ∈ children net -> 1%positive ∉ parameters child) as H.
  { intros child Hc. cbn in Hc.
    rewrite !elem_of_cons in Hc. destruct Hc as [->|[->|Hc]].
    - rewrite elem_of_parameters. cbn. rewrite list_elem_of_singleton. discriminate.
    - rewrite elem_of_parameters. cbn. rewrite list_elem_of_singleton. discriminate.
    - by apply not_elem_of_nil in Hc. }
  pose proof (freeze_root_untouched net (Some 1) true h 1%positive H) as (H1 & H2 & _).
  split; [exact H1|exact H2].
Defined.

(** ** Switching the mode changes neither parameters nor shape *)

Lemma subtree_parameters_train mode module :
  subtree_parameters (train mode module) = subtree_parameters module.
Proof.
  induction module as [bn tr ps cs IH] using Module_ind. simpl. f_equal.
  induction IH as [|c r Hc _ IHr]; [done|]. simpl. by rewrite Hc, IHr.
Qed.

Lemma parameters_train mode module :
  parameters (train mode module) = parameters module.
Proof. unfold parameters. by rewrite subtree_parameters_train. Qed.

Lemma bn_type_train mode module : bn_type (train mode module) = bn_type module.
Proof. by destruct module. Qed.

Lemma leaves_train mode module :
  leaves (train mode module) = map (train mode) (leaves module).
Proof.
  induction module as [bn tr ps cs IH] using Module_ind.
  destruct cs as [|c cs]; [done|].
  change (leaves (train mode (MkModule bn tr ps (c :: cs))))
    with (flat_map leaves (map (train mode) (c :: cs))).
  change (leaves (MkModule bn tr ps (c :: cs))) with (flat_map leaves (c :: cs)).
  induction IH as [|x r Hx _ IHr]; [done|].
  simpl. by rewrite map_app, Hx, IHr.
Qed.

(** ** The collector is a pass over the leaves *)

Lemma flat_map_flat_map {A B C} (f : B -> list C) (g : A -> list B) l :
  flat_map f (flat_map g l) = flat_map (fun x => flat_map f (g x)) l.
Proof.
  induction l as [|x l IH]; [done|]. simpl. by rewrite flat_map_app, IH.
Qed.

Lemma flat_map_Forall_ext {A B} (f g : A -> list B) l :
  Forall (fun x => f x = g x) l -> flat_map f l = flat_map g l.
Proof. induction 1 as [|x l Hx _ IH]; [done|]. simpl. by rewrite Hx, IH. Qed.

Lemma filter_params_leaves module train_bn h :
  filter_params module train_bn h =
  flat_map (fun leaf =>
              if bn_type leaf && train_bn then []
              else List.filter (requires_grad h) (parameters leaf))
           (leaves module).
Proof.
  induction module as [bn tr ps cs IH] using Module_ind.
  destruct cs as [|c cs].
  - simpl. destruct (bn && train_bn); simpl; by rewrite ?app_nil_r.
  - change (filter_params (MkModule bn tr ps (c :: cs)) train_bn h)
      with (flat_map (fun child => filter_params child train_bn h) (c :: cs)).
    change (leaves (MkModule bn tr ps (c :: cs))) with (flat_map leaves (c :: cs)).
    rewrite flat_map_flat_map. by apply flat_map_Forall_ext.
Qed.

Lemma filter_all_true {A} (f : A -> bool) l :
  Forall (fun x => f x = true) l -> List.filter f l = l.
Proof. induction 1 as [|x l Hx _ IH]; [done|]. simpl. by rewrite Hx, IH. Qed.

(** After [_make_trainable(module)] the collector takes every parameter of
    every leaf it does not skip. *)
Lemma filter_params_after_thaw module train_bn h :
  filter_params (train true module) train_bn (thaw h module) =
  flat_map (fun leaf => if bn_type leaf && train_bn then [] else parameters leaf)
           (leaves module).
Proof.
  rewrite filter_params_leaves, leaves_train.
  assert (forall ls,
    Forall (fun leaf => forall p, p ∈ parameters leaf -> p ∈ parameters module) ls ->
    flat_map (fun leaf => if bn_type leaf && train_bn then []
                else List.filter (requires_grad (thaw h module)) (parameters leaf))
             (map (train true) ls)
    = flat_map (fun leaf => if bn_type leaf && train_bn then [] else parameters leaf)
               ls) as Hgen.
  { induction 1 as [|l ls Hl _ IH]; [done|].
    simpl. rewrite IH. f_equal.
    rewrite bn_type_train. destruct (bn_type l && train_bn); [done|].
    rewrite parameters_train. apply filter_all_true, Forall_forall.
    intros p Hp. apply requires_grad_set_in, Hl, Hp. }
  apply Hgen, Forall_forall. intros leaf Hleaf p Hp.
  by eapply leaves_parameters.
Qed.

(** ** The parameter-group synchronizer *)

(** C3: [_unfreeze_and_add_param_group] appends exactly one group, after
    the existing ones and leaving them as they were.  Its learning rate is
    [lr / 10] when [lr] is given, and the current rate of group 0 divided
    by 10 when [lr] is [None].  The call returns in both cases; the one
    failure is [IndexError], raised when [lr] is [None] and the optimizer
    has no group 0 to read, and then nothing is appended. *)
Theorem unfreeze_group_rate :
  (forall module groups (lr : float) train_bn h,
     _unfreeze_and_add_param_group module (MkOptimizer groups) (Some lr) train_bn h
     = Ok (train true module, thaw h module,
           MkOptimizer
             (groups ++
              [MkParamGroup
                 (filter_params (train true module) train_bn (thaw h module))
                 (lr / 10)%float])))
  /\ (forall module g0 groups train_bn h,
        _unfreeze_and_add_param_group module (MkOptimizer (g0 :: groups)) None
                                      train_bn h
        = Ok (train true module, thaw h module,
              MkOptimizer
                ((g0 :: groups) ++
                 [MkParamGroup
                    (filter_params (train true module) train_bn (thaw h module))
                    (pg_lr g0 / 10)%float])))
  /\ (forall module optimizer lr train_bn h,
        match _unfreeze_and_add_param_group module optimizer lr train_bn h with
        | Ok (_, _, optimizer') =>
            exists g,
              param_groups optimizer' = param_groups optimizer ++ [g]
              /\ length (param_groups optimizer')
                 = S (length (param_groups optimizer))
              /\ match lr with
                 | Some lr => pg_lr g = (lr / 10)%float
                 | None =>
                     exists g0 rest,
                       param_groups optimizer = g0 :: rest
                       /\ pg_lr g = (pg_lr g0 / 10)%float
                 end
        | Raise e (_, _, optimizer') =>
            e = IndexError /\ lr = None /\ param_groups optimizer = []
            /\ optimizer' = optimizer
        end).
Proof.
  split; [reflexivity|]. split; [reflexivity|].
  intros module [groups] lr train_bn h.
  unfold _unfreeze_and_add_param_group, _make_trainable, base_lr.
  destruct lr as [lr|]; simpl.
  - eexists. split; [reflexivity|]. split; [|reflexivity].
    rewrite length_app. simpl. lia.
  - destruct groups as [|g0 rest]; simpl.
    + repeat split.
    + eexists. split; [reflexivity|]. split.
      * rewrite length_app. simpl. lia.
      * by exists g0, rest.
Qed.

(** The rates of the scenario: an explicit [lr] of 5 gives a group at
    0.5, and no [lr] on an optimizer whose group 0 runs at 20 gives 2. *)
Example unfreeze_group_rate_run :
  let unit := MkModule false false [1%positive] [] in
  let opt := MkOptimizer [MkParamGroup [7%positive] 20%float] in
  let h : gmap positive bool :=
    <[7%positive := true]> (<[1%positive := false]> ∅) in
  let h' : gmap positive bool :=
    <[7%positive := true]> (<[1%positive := true]> ∅) in
  _unfreeze_and_add_param_group unit opt (Some 5%float) true h
  = Ok (MkModule false true [1%positive] [], h',
        MkOptimizer [MkParamGroup [7%positive] 20%float;
                     MkParamGroup [1%positive] 0.5%float])
  /\ _unfreeze_and_add_param_group unit opt None true h
     = Ok (MkModule false true [1%positive] [], h',
           MkOptimizer [MkParamGroup [7%positive] 20%float;
                        MkParamGroup [1%positive] 2%float]).
Proof. split; vm_compute; reflexivity. Qed.

(** C4 as stated fails, in both directions.  On a normalization leaf that
    holds parameter 1: with [train_bn = false] the group gathers the
    parameter, which the specification's collector leaves out; with
    [train_bn = true] the group is empty although the parameter is
    trainable, and the specification's collector gathers it. *)
Lemma collector_polarity_reversed :
  let unit := MkModule true false [1%positive] [] in
  let opt := MkOptimizer [MkParamGroup [7%positive] 20%float] in
  let h : gmap positive bool :=
    <[7%positive := true]> (<[1%positive := false]> ∅) in
  let h' : gmap positive bool :=
    <[7%positive := true]> (<[1%positive := true]> ∅) in
  _unfreeze_and_add_param_group unit opt None false h
  = Ok (MkModule true true [1%positive] [], h',
        MkOptimizer [MkParamGroup [7%positive] 20%float;
                     MkParamGroup [1%positive] 2%float])
  /\ collector_as_specified (MkModule true true [1%positive] []) false h' = []
  /\ _unfreeze_and_add_param_group unit opt None true h
     = Ok (MkModule true true [1%positive] [], h',
           MkOptimizer [MkParamGroup [7%positive] 20%float;
                        MkParamGroup [] 2%float])
  /\ requires_grad h' 1%positive = true
  /\ collector_as_specified (MkModule true true [1%positive] []) true h'
     = [1%positive].
Proof. repeat split; vm_compute; reflexivity. Qed.

(** C4, amended: the group gathers the trainable parameters of the leaves
    of the unit's subtree, those of normalization leaves left out when
    [train_bn] is true (not when it is false); a parameter registered on a
    module that has children is not gathered.  As [_make_trainable] has just
    run, every parameter of a leaf that is not left out is gathered. *)
Theorem unfreeze_collects_leaf_parameters :
  (forall module train_bn h,
     filter_params module train_bn h =
     flat_map (fun leaf =>
                 if bn_type leaf && train_bn then []
                 else List.filter (requires_grad h) (parameters leaf))
              (leaves module))
  /\ (forall module optimizer lr train_bn h,
        _unfreeze_and_add_param_group module optimizer lr train_bn h =
        match base_lr optimizer lr with
        | None => Raise IndexError (train true module, thaw h module, optimizer)
        | Some params_lr =>
            Ok (train true module, thaw h module,
                MkOptimizer
                  (param_groups optimizer ++
                   [MkParamGroup
                      (flat_map (fun leaf =>
                                   if bn_type leaf && train_bn then []
                                   else parameters leaf)
                                (leaves module))
                      (params_lr / 10)%float]))
        end)
  /\ (forall module train_bn h p,
        p ∈ filter_params (train true module) train_bn (thaw h module) <->
        exists leaf, leaf ∈ leaves module /\
                     bn_type leaf && train_bn = false /\
                     p ∈ parameters leaf).
Proof.
  split; [apply filter_params_leaves|]. split.
  - intros module optimizer lr train_bn h.
    unfold _unfreeze_and_add_param_group, _make_trainable.
    fold (thaw h module).
    destruct (base_lr optimizer lr); [|done].
    by rewrite filter_params_after_thaw.
  - intros module train_bn h p.
    rewrite filter_params_after_thaw, elem_of_flat_map_list.
    split.
    + intros (leaf & Hleaf & Hp). exists leaf.
      destruct (bn_type leaf && train_bn); [by apply not_elem_of_nil in Hp|done].
    + intros (leaf & Hleaf & Hk & Hp). exists leaf. by rewrite Hk.
Qed.

(** C6 as stated fails: on a unit without parameters nothing is collected,
    and the call returns with a group of no parameters appended. *)
Lemma unfreeze_appends_empty_group :
  let unit := MkModule false false [] [] in
  let opt := MkOptimizer [MkParamGroup [7%positive] 20%float] in
  let h : gmap positive bool := <[7%positive := true]> ∅ in
  filter_params (train true unit) true (thaw h unit) = []
  /\ _unfreeze_and_add_param_group unit opt None true h
     = Ok (MkModule false true [] [], h,
           MkOptimizer [MkParamGroup [7%positive] 20%float;
                        MkParamGroup [] 2%float]).
Proof. split; vm_compute; reflexivity. Qed.

(** C6, amended: an empty collection is no error.  Whenever the base rate
    is there ([lr] given, or group 0 exists) and nothing is collected, the
    call returns and has appended one group without parameters. *)
Theorem unfreeze_empty_collection module optimizer lr train_bn h params_lr :
  base_lr optimizer lr = Some params_lr ->
  filter_params (train true module) train_bn (thaw h module) = [] ->
  _unfreeze_and_add_param_group module optimizer lr train_bn h
  = Ok (train true module, thaw h module,
        MkOptimizer (param_groups optimizer ++
                     [MkParamGroup [] (params_lr / 10)%float])).
Proof.
  intros Hlr Hnone.
  unfold _unfreeze_and_add_param_group, _make_trainable.
  fold (thaw h module). by rewrite Hlr, Hnone.
Qed.

Lemma unfreeze_empty_collection_witness :
  let unit := MkModule true false [1%positive] [] in
  let opt := MkOptimizer [MkParamGroup [7%positive] 20%float] in
  let h : gmap positive bool :=
    <[7%positive := true]> (<[1%positive := true]> ∅) in
  _unfreeze_and_add_param_group unit opt (Some 5%float) true h
  = Ok (train true unit, thaw h unit,
        MkOptimizer (param_groups opt ++ [MkParamGroup [] (5 / 10)%float])).
Proof.
  intros unit opt h.
  apply (unfreeze_empty_collection unit opt (Some 5%float) true h 5%float).
  - reflexivity.
  - vm_compute. reflexivity.
Defined.

(** ** Trainable parameters and group membership *)



Lemma occurrences_notin (l : list positive) p :
  p ∉ l -> length (List.filter (Pos.eqb p) l) = 0%nat.
Proof.
  induction l as [|q l IH]; intros Hp; [done|]. simpl.
  destruct (Pos.eqb_spec p q) as [->|_]; [set_solver|].
  apply IH. set_solver.
Qed.

Lemma occurrences_NoDup (l : list positive) p :
  NoDup l -> p ∈ l -> length (List.filter (Pos.eqb p) l) = 1%nat.
Proof.
  induction 1 as [|q l Hq _ IH]; intros Hp; [set_solver|]. simpl.
  destruct (Pos.eqb_spec p q) as [->|Hne].
  - simpl. by rewrite occurrences_notin.
  - apply IH. set_solver.
Qed.


Lemma requires_grad_thaw h module p :
  requires_grad (thaw h module) p = true ->
  p ∈ parameters module \/ requires_grad h p = true.
Proof.
  intros Hp. destruct (decide (p ∈ parameters module)) as [|Hout]; [by left|].
  right. unfold thaw in Hp. by rewrite requires_grad_set_notin in Hp.
Qed.


(** ** The stage scheduler *)

Section SchedulerFacts.
Context {selector : Type}.
Variable resolve : selector -> Module -> option (Module * (Module -> Module)).
Variable keep : bool.

Lemma unfreeze_appends_one module optimizer lr train_bn h module' h' optimizer' :
  _unfreeze_and_add_param_group module optimizer lr train_bn h
  = Ok (module', h', optimizer') ->
  length (param_groups optimizer') = S (length (param_groups optimizer)).
Proof.
  unfold _unfreeze_and_add_param_group, _make_trainable.
  destruct (base_lr optimizer lr); [|discriminate].
  intros [= <- <- <-]. simpl. rewrite length_app. simpl. lia.
Qed.

(** A returning [fire] consumed [k] pending stages, one group each, and
    stopped in front of a stage that no epoch up to [epoch] reaches. *)
Lemma fire_progress epoch (pending : list (@Stage selector)) s s' :
  fire resolve keep epoch pending s = Ok s' ->
  exists k : nat,
    (k <= length pending)%nat
    /\ pointer s' = (pointer s + k)%nat
    /\ length (param_groups (optimizer s'))
       = (length (param_groups (optimizer s)) + k)%nat
    /\ forall e', e' <= epoch -> fire resolve keep e' (drop k pending) s' = Ok s'.
Proof.
  revert s. induction pending as [|stage pending IH]; intros s Hfire.
  - injection Hfire as <-. exists 0%nat. simpl. repeat split; auto with lia.
  - simpl in Hfire. destruct (Z.leb_spec (epoch_threshold stage) epoch) as [Hdue|Hlater].
    + destruct (resolve (subtree_selector stage) (net s)) as [[unit plug]|];
        [|discriminate].
      destruct (_unfreeze_and_add_param_group unit (optimizer s)
                  (lr_or_none stage) keep (flags s))
        as [[[unit' h'] opt']|e [[unit' h'] opt']] eqn:Hcall; [|discriminate].
      apply unfreeze_appends_one in Hcall.
      apply IH in Hfire as (k & Hk & Hptr & Hlen & Hagain). simpl in *.
      exists (S k). repeat split; [lia|lia|lia|exact Hagain].
    + injection Hfire as <-. exists 0%nat. repeat split; [lia|lia|lia|].
      intros e' He'. simpl.
      destruct (Z.leb_spec (epoch_threshold stage) e'); [lia|reflexivity].
Qed.

Lemma on_epoch_end_progress schedule epoch s s' :
  on_epoch_end resolve keep schedule epoch s = Ok s' ->
  (pointer s <= pointer s')%nat
  /\ (pointer s' <= Nat.max (pointer s) (length schedule))%nat
  /\ length (param_groups (optimizer s'))
     = (length (param_groups (optimizer s)) + (pointer s' - pointer s))%nat
  /\ forall e', e' <= epoch -> on_epoch_end resolve keep schedule e' s' = Ok s'.
Proof.
  unfold on_epoch_end. intros Hfire.
  apply fire_progress in Hfire as (k & Hk & Hptr & Hlen & Hagain).
  rewrite length_drop in Hk.
  repeat split; [lia|lia|lia|].
  intros e' He'. rewrite Hptr, <- drop_drop. by apply Hagain.
Qed.

Lemma run_progress schedule epochs s s' :
  run resolve keep schedule epochs s = Ok s' ->
  (pointer s <= pointer s')%nat
  /\ (pointer s' <= Nat.max (pointer s) (length schedule))%nat
  /\ length (param_groups (optimizer s'))
     = (length (param_groups (optimizer s)) + (pointer s' - pointer s))%nat.
Proof.
  revert s. induction epochs as [|e epochs IH]; intros s Hrun.
  - injection Hrun as <-. lia.
  - simpl in Hrun.
    destruct (on_epoch_end resolve keep schedule e s) as [s1|x s1] eqn:Hstep;
      [|discriminate].
    apply on_epoch_end_progress in Hstep as (H1 & H2 & H3 & _).
    apply IH in Hrun as (H4 & H5 & H6). lia.
Qed.

(** C8: the scheduler is idempotent over epoch indices.  Once
    [on_epoch_end(e)] has returned, calling it again with [e] or with any
    earlier epoch index returns the very same state: nothing fires, no
    group is appended.  The pointer only moves forward and stays within
    the schedule, and over any further run of epochs, in whatever order,
    the optimizer gains exactly one group per step of the pointer, so no
    stage contributes two groups. *)
Theorem on_epoch_end_fires_once schedule (e : Z) s s' :
  on_epoch_end resolve keep schedule e s = Ok s' ->
  (forall e', e' <= e -> on_epoch_end resolve keep schedule e' s' = Ok s')
  /\ (pointer s <= pointer s')%nat
  /\ (pointer s' <= Nat.max (pointer s) (length schedule))%nat
  /\ length (param_groups (optimizer s'))
     = (length (param_groups (optimizer s)) + (pointer s' - pointer s))%nat
  /\ (forall epochs s'',
        run resolve keep schedule epochs s' = Ok s'' ->
        (pointer s' <= pointer s'')%nat
        /\ (pointer s'' <= Nat.max (pointer s') (length schedule))%nat
        /\ length (param_groups (optimizer s''))
           = (length (param_groups (optimizer s'))
              + (pointer s'' - pointer s'))%nat).
Proof.
  intros Hcall.
  apply on_epoch_end_progress in Hcall as (H1 & H2 & H3 & H4).
  split; [exact H4|]. split; [exact H1|]. split; [exact H2|].
  split; [exact H3|].
  intros epochs s'' Hrun. exact (run_progress _ _ _ _ Hrun).
Qed.

End SchedulerFacts.

(** C8 on the schedule with thresholds 5 and 10: the call for epoch 7
    fires the first stage, and a second call for epoch 7 changes nothing. *)
Lemma on_epoch_end_fires_once_witness :
  let net0 := MkModule false true []
                [MkModule false false [1%positive] [];
                 MkModule true true [2%positive] [];
                 MkModule false true [3%positive] []] in
  let h0 : gmap positive bool :=
    <[3%positive := true]> (<[2%positive := true]> (<[1%positive := false]> ∅)) in
  let s0 := MkScheduler net0 h0
              (MkOptimizer [MkParamGroup [2%positive; 3%positive] 20%float]) 0 in
  let s1 := MkScheduler (train true net0)
              (<[1%positive := true]> h0)
              (MkOptimizer [MkParamGroup [2%positive; 3%positive] 20%float;
                            MkParamGroup [1%positive] 0.5%float]) 1 in
  let schedule := [MkStage 5 0%nat (Some 5%float); MkStage 10 1%nat None] in
  on_epoch_end resolve_child true schedule 7 s0 = Ok s1
  /\ on_epoch_end resolve_child true schedule 7 s1 = Ok s1.
Proof.
  intros net0 h0 s0 s1 schedule.
  assert (on_epoch_end resolve_child true schedule 7 s0 = Ok s1) as H
    by (vm_compute; reflexivity).
  split; [exact H|].
  apply (proj1 (on_epoch_end_fires_once resolve_child true schedule 7 s0 s1 H)).
  lia.
Defined.

(** * Further properties of transfer_learning.py *)

Import FineTune Writes.

(** ** Sequences of assignments *)

Lemma assign_cons w ws (h : gmap positive bool) :
  assign (w :: ws) h = assign ws (set_requires_grad w.2 w.1 h).
Proof. reflexivity. Qed.

Lemma assign_app ws1 ws2 (h : gmap positive bool) :
  assign (ws1 ++ ws2) h = assign ws2 (assign ws1 h).
Proof. unfold assign. by rewrite foldl_app. Qed.

(** A sequence of assignments either never touches a parameter or leaves
    it with one value, whatever the heap it runs on. *)
Lemma assign_lookup ws p :
  (forall h : gmap positive bool, assign ws h !! p = h !! p)
  \/ (exists v, forall h : gmap positive bool, assign ws h !! p = Some v).
Proof.
  induction ws as [|w ws IH].
  - by left.
  - destruct IH as [Hkeep|[v Hv]].
    + destruct (decide (p ∈ w.1)) as [Hin|Hout].
      * right. exists w.2. intros h.
        rewrite assign_cons, Hkeep. by apply lookup_set_requires_grad_in.
      * left. intros h.
        rewrite assign_cons, Hkeep. by apply lookup_set_requires_grad_notin.
    + right. exists v. intros h. by rewrite assign_cons.
Qed.

Lemma assign_idempotent ws (h : gmap positive bool) :
  assign ws (assign ws h) = assign ws h.
Proof.
  apply map_eq. intros p.
  destruct (assign_lookup ws p) as [Hkeep|[v Hv]].
  - by rewrite Hkeep.
  - by rewrite !Hv.
Qed.

Lemma assign_frame ws (h : gmap positive bool) p :
  (forall w, w ∈ ws -> p ∉ w.1) -> assign ws h !! p = h !! p.
Proof.
  revert h. induction ws as [|w ws IH]; intros h Hp; [done|].
  rewrite assign_cons, IH by (intros; apply Hp; set_solver).
  apply lookup_set_requires_grad_notin, Hp. set_solver.
Qed.

(** When every assignment that reaches the parameter writes [v], and one
    does, the parameter ends with [v]. *)
Lemma assign_agree ws (h : gmap positive bool) p v :
  (forall w, w ∈ ws -> p ∈ w.1 -> w.2 = v) ->
  (exists w, w ∈ ws /\ p ∈ w.1) ->
  assign ws h !! p = Some v.
Proof.
  revert h. induction ws as [|w ws IH]; intros h Hall (w0 & Hw0 & Hp0).
  - by apply not_elem_of_nil in Hw0.
  - rewrite assign_cons.
    destruct (decide (p ∈ flat_map fst ws)) as [Hlater|Hnone].
    + apply IH; [|by apply elem_of_flat_map_list].
      intros w' Hw'. apply Hall. set_solver.
    + rewrite elem_of_flat_map_list in Hnone. rewrite assign_frame.
      * apply elem_of_cons in Hw0 as [->|Hw0]; [|exfalso; apply Hnone; eauto].
        rewrite <- (Hall w) by set_solver.
        by apply lookup_set_requires_grad_in.
      * intros w' Hw' Hin. apply Hnone. eauto.
Qed.

(** With pairwise disjoint targets, an assignment that reaches the
    parameter is the only one that does. *)
Lemma assign_NoDup ws (h : gmap positive bool) ps v p :
  NoDup (flat_map fst ws) -> (ps, v) ∈ ws -> p ∈ ps ->
  assign ws h !! p = Some v.
Proof.
  revert h. induction ws as [|w ws IH]; intros h Hnd Hw Hp.
  - by apply not_elem_of_nil in Hw.
  - simpl in Hnd. apply NoDup_app in Hnd as (_ & Hdisj & Hnd).
    rewrite assign_cons.
    apply elem_of_cons in Hw as [<-|Hw]; [|by apply IH].
    rewrite assign_frame.
    + by apply lookup_set_requires_grad_in.
    + intros w' Hw' Hin. apply (Hdisj p Hp).
      apply elem_of_flat_map_list. by exists w'.
Qed.

Lemma foldl_freeze_leaf_assign train_bn (h : gmap positive bool) ls :
  foldl (freeze_leaf train_bn) h ls
  = assign (map (fun leaf => (parameters leaf, kept train_bn leaf)) ls) h.
Proof. revert h. induction ls as [|l ls IH]; intros h; [done|]. simpl. apply IH. Qed.

Lemma foldl_thaw_assign (h : gmap positive bool) cs :
  foldl thaw h cs = assign (map (fun c => (parameters c, true)) cs) h.
Proof. revert h. induction cs as [|c cs IH]; intros h; [done|]. simpl. apply IH. Qed.

(** The assignments of [freeze], in the order it makes them: one per leaf
    of a frozen child, then one per thawed child. *)
Lemma freeze_assign module n train_bn h :
  let cs := children module in
  let i := adjust_index (length cs)
             (match n with None => Z.of_nat (length cs) | Some k => k end) in
  freeze module n train_bn h
  = (with_children module
       (map (map_leaves (fun leaf => train (kept train_bn leaf) leaf)) (take i cs)
        ++ map (train true) (drop i cs)),
     assign (map (fun leaf => (parameters leaf, kept train_bn leaf))
                 (flat_map leaves (take i cs))
             ++ map (fun c => (parameters c, true)) (drop i cs)) h).
Proof.
  intros cs i. rewrite freeze_at_index. fold cs. fold i.
  rewrite for_each_make_trainable, for_each_recursive_freeze. simpl.
  by rewrite assign_app, foldl_thaw_assign, foldl_freeze_leaf_assign.
Qed.

(** ** Modes are the only thing the tree records of a freeze *)

Lemma train_train mode mode' module :
  train mode (train mode' module) = train mode module.
Proof.
  induction module as [bn tr ps cs IH] using Module_ind. simpl. f_equal.
  rewrite map_map. induction IH as [|c r Hc _ IHr]; [done|].
  simpl. by rewrite Hc, IHr.
Qed.

Lemma modules_train mode module :
  _modules (train mode module) = map (train mode) (_modules module).
Proof. by destruct module. Qed.

Lemma kept_train train_bn mode leaf :
  kept train_bn (train mode leaf) = kept train_bn leaf.
Proof. unfold kept. by rewrite bn_type_train. Qed.

Lemma train_with_children mode module cs :
  train mode (with_children module cs)
  = with_children (train mode module) (map (train mode) cs).
Proof. by destruct module. Qed.

Lemma with_children_train mode module :
  train mode module
  = with_children (train mode module) (map (train mode) (_modules module)).
Proof. by destruct module. Qed.

Lemma train_map_leaves mode f module :
  (forall leaf, train mode (f leaf) = train mode leaf) ->
  train mode (map_leaves f module) = train mode module.
Proof.
  intros Hf. induction module as [bn tr ps cs IH] using Module_ind.
  destruct cs as [|c cs]; [apply Hf|].
  change (map_leaves f (MkModule bn tr ps (c :: cs)))
    with (with_children (MkModule bn tr ps (c :: cs))
                        (map (map_leaves f) (c :: cs))).
  rewrite train_with_children, map_map.
  rewrite (with_children_train mode (MkModule bn tr ps (c :: cs))).
  unfold with_children. simpl. f_equal.
  exact (map_ext_Forall _ _ IH).
Qed.

Lemma train_freeze_modes mode train_bn module :
  train mode (map_leaves (fun leaf => train (kept train_bn leaf) leaf) module)
  = train mode module.
Proof. apply train_map_leaves. intros leaf. apply train_train. Qed.

Lemma subtree_parameters_freeze_modes train_bn module :
  subtree_parameters
    (map_leaves (fun leaf => train (kept train_bn leaf) leaf) module)
  = subtree_parameters module.
Proof.
  rewrite <- (subtree_parameters_train false), train_freeze_modes.
  apply subtree_parameters_train.
Qed.

Lemma parameters_freeze_modes train_bn module :
  parameters (map_leaves (fun leaf => train (kept train_bn leaf) leaf) module)
  = parameters module.
Proof. unfold parameters. by rewrite subtree_parameters_freeze_modes. Qed.

Lemma leaves_freeze_modes train_bn module :
  leaves (map_leaves (fun leaf => train (kept train_bn leaf) leaf) module)
  = map (fun leaf => train (kept train_bn leaf) leaf) (leaves module).
Proof.
  induction module as [bn tr ps cs IH] using Module_ind.
  destruct cs as [|c cs]; [done|].
  change (leaves (MkModule bn tr ps (c :: cs))) with (flat_map leaves (c :: cs)).
  change (leaves (map_leaves _ (MkModule bn tr ps (c :: cs))))
    with (flat_map leaves
            (map (map_leaves (fun leaf => train (kept train_bn leaf) leaf))
                 (c :: cs))).
  induction IH as [|x r Hx _ IHr]; [done|].
  simpl. by rewrite map_app, Hx, IHr.
Qed.

Lemma freeze_modes_idempotent train_bn module :
  let f := map_leaves (fun leaf => train (kept train_bn leaf) leaf) in
  f (f module) = f module.
Proof.
  induction module as [bn tr ps cs IH] using Module_ind.
  destruct cs as [|c cs].
  - simpl. reflexivity.
  - simpl. f_equal. f_equal.
    + by inversion IH.
    + inversion IH as [|? ? _ Hr]; subst. rewrite map_map.
      clear -Hr. induction Hr as [|x r Hx _ IHr]; [done|].
      simpl in *. by rewrite Hx, IHr.
Qed.

(** The assignments of a pass do not depend on the modes. *)
Lemma freeze_writes_freeze_modes train_bn ls :
  map (fun leaf => (parameters leaf, kept train_bn leaf))
      (map (fun leaf => train (kept train_bn leaf) leaf) ls)
  = map (fun leaf => (parameters leaf, kept train_bn leaf)) ls.
Proof.
  rewrite map_map. apply map_ext. intros leaf.
  f_equal; [apply parameters_train|apply kept_train].
Qed.

Lemma freeze_writes_children train_bn cs :
  map (fun leaf => (parameters leaf, kept train_bn leaf))
      (flat_map leaves
         (map (map_leaves (fun leaf => train (kept train_bn leaf) leaf)) cs))
  = map (fun leaf => (parameters leaf, kept train_bn leaf)) (flat_map leaves cs).
Proof.
  induction cs as [|c r IH]; [done|].
  simpl. rewrite !map_app, IH. f_equal.
  rewrite leaves_freeze_modes. apply freeze_writes_freeze_modes.
Qed.

Lemma adjust_index_le len k : (adjust_index len k <= len)%nat.
Proof. unfold adjust_index. destruct (Z.ltb_spec k 0); lia. Qed.

(** X1: [freeze] is idempotent.  Calling it again with the same [n] and
    [train_bn] on what the first call left changes neither a flag nor a
    mode. *)
Theorem freeze_idempotent module (n : option Z) train_bn h :
  freeze (fst (freeze module n train_bn h)) n train_bn
         (snd (freeze module n train_bn h))
  = freeze module n train_bn h.
Proof.
  rewrite (freeze_assign module). simpl.
  set (cs := children module).
  set (i := adjust_index (length cs)
              (match n with None => Z.of_nat (length cs) | Some k => k end)).
  set (F := map_leaves (fun leaf => train (kept train_bn leaf) leaf)).
  set (ws := map (fun leaf => (parameters leaf, kept train_bn leaf))
                 (flat_map leaves (take i cs))
             ++ map (fun c => (parameters c, true)) (drop i cs)).
  assert (i <= length cs)%nat as Hi by apply adjust_index_le.
  rewrite freeze_assign.
  change (children (with_children module
                      (map F (take i cs) ++ map (train true) (drop i cs))))
    with (map F (take i cs) ++ map (train true) (drop i cs)).
  assert (length (map F (take i cs) ++ map (train true) (drop i cs)) = length cs)
    as Hlen.
  { rewrite length_app, !length_map, length_take, length_drop. lia. }
  rewrite Hlen. fold i.
  assert (length (map F (take i cs)) = i) as Hpre
    by (rewrite length_map, length_take; lia).
  rewrite take_app_length' by done.
  rewrite drop_app_length' by done.
  f_equal.
  - unfold with_children. simpl. f_equal. f_equal.
    + rewrite map_map. apply map_ext. intros c. apply freeze_modes_idempotent.
    + rewrite map_map. apply map_ext. intros c. apply train_train.
  - assert (map (fun leaf => (parameters leaf, kept train_bn leaf))
                (flat_map leaves (map F (take i cs)))
            ++ map (fun c => (parameters c, true)) (map (train true) (drop i cs))
            = ws) as ->.
    { unfold ws. f_equal.
      - apply freeze_writes_children.
      - rewrite map_map. apply map_ext. intros c. by rewrite parameters_train. }
    apply assign_idempotent.
Qed.

(** X2: an [n] at or beyond the number of children is the same as no [n]:
    every child is frozen. *)
Theorem freeze_clamps_large_n module (n : Z) train_bn h :
  Z.of_nat (length (children module)) <= n ->
  freeze module (Some n) train_bn h = freeze module None train_bn h.
Proof.
  intros Hn. rewrite !freeze_at_index. simpl.
  rewrite adjust_index_length, adjust_index_nonneg by lia.
  by rewrite Nat.min_r by lia.
Qed.

Lemma freeze_clamps_large_n_witness :
  let net := MkModule false true []
               [MkModule false true [1%positive] [];
                MkModule true true [2%positive] []] in
  let h : gmap positive bool :=
    <[2%positive := true]> (<[1%positive := true]> ∅) in
  Z.of_nat (length (children net)) <= 5
  /\ freeze net (Some 5) true h = freeze net None true h.
Proof.
  intros net h.
  assert (Z.of_nat (length (children net)) <= 5) as H by (simpl; lia).
  split; [exact H|].
  exact (freeze_clamps_large_n net 5 true h H).
Defined.

Lemma train_after_freeze module (n : option Z) train_bn h mode :
  train mode (fst (freeze module n train_bn h)) = train mode module.
Proof.
  rewrite freeze_assign. cbn [fst].
  rewrite train_with_children, map_app, !map_map.
  rewrite (with_children_train mode module) at 2.
  unfold with_children, children. simpl. f_equal.
  set (i := adjust_index (length (_modules module))
              (match n with
               | None => Z.of_nat (length (_modules module))
               | Some k => k
               end)).
  rewrite <- (take_drop i (_modules module)) at 3.
  rewrite map_app. f_equal; apply map_ext; intros c.
  - apply train_freeze_modes.
  - apply train_train.
Qed.

Lemma parameters_after_freeze module (n : option Z) train_bn h :
  parameters (fst (freeze module n train_bn h)) = parameters module.
Proof.
  unfold parameters.
  rewrite <- (subtree_parameters_train false), train_after_freeze.
  by rewrite subtree_parameters_train.
Qed.

(** X3: the freeze functions change modes and flags only.  With the modes
    set aside (every module switched to one [mode]) the tree that
    [_make_trainable], [_recursive_freeze] or [freeze] returns is the tree
    it was given: same children in the same order, same parameters on
    each module, same normalization leaves. *)
Theorem freeze_changes_modes_only module (n : option Z) train_bn h mode :
  train mode (fst (_make_trainable module h)) = train mode module
  /\ train mode (fst (_recursive_freeze module train_bn h)) = train mode module
  /\ train mode (fst (freeze module n train_bn h)) = train mode module
  /\ parameters (fst (_recursive_freeze module train_bn h)) = parameters module
  /\ parameters (fst (freeze module n train_bn h)) = parameters module
  /\ length (children (fst (freeze module n train_bn h)))
     = length (children module).
Proof.
  split; [apply train_train|].
  split; [rewrite recursive_freeze_split; apply train_freeze_modes|].
  split; [apply train_after_freeze|].
  split; [rewrite recursive_freeze_split; apply parameters_freeze_modes|].
  split; [apply parameters_after_freeze|].
  rewrite freeze_assign. simpl.
  rewrite length_app, !length_map, length_take, length_drop.
  pose proof (adjust_index_le (length (children module))
    (match n with None => Z.of_nat (length (children module)) | Some k => k end)).
  unfold children in *. lia.
Qed.

(** ** Thawing after a freeze *)

(** [freeze] writes the flags of parameters of the module only. *)
Lemma freeze_frame_outside module (n : option Z) train_bn h p :
  p ∉ parameters module ->
  snd (freeze module n train_bn h) !! p = h !! p.
Proof.
  intros Hp. rewrite freeze_assign. cbn [snd].
  apply assign_frame. intros w Hw Hin. apply Hp.
  apply elem_of_app in Hw as [Hw|Hw].
  - apply list_elem_of_fmap in Hw as (leaf & -> & Hleaf).
    apply elem_of_flat_map_list in Hleaf as (c & Hc & Hleaf).
    apply (parameters_child _ c); [by eapply subseteq_take|].
    by eapply leaves_parameters.
  - apply list_elem_of_fmap in Hw as (c & -> & Hc).
    apply (parameters_child _ c); [by eapply subseteq_drop|done].
Qed.

Lemma recursive_freeze_frame_outside module train_bn h p :
  p ∉ parameters module ->
  snd (_recursive_freeze module train_bn h) !! p = h !! p.
Proof.
  intros Hp. rewrite recursive_freeze_split. cbn [snd].
  apply foldl_freeze_leaf_frame. intros leaf Hleaf Hin.
  apply Hp. by eapply leaves_parameters.
Qed.

Lemma thaw_absorbs (h h' : gmap positive bool) module :
  (forall p, p ∉ parameters module -> h' !! p = h !! p) ->
  thaw h' module = thaw h module.
Proof.
  intros Hout. apply map_eq. intros p. unfold thaw.
  destruct (decide (p ∈ parameters module)) as [Hin|Hnot].
  - by rewrite !lookup_set_requires_grad_in.
  - rewrite !lookup_set_requires_grad_notin by done. by apply Hout.
Qed.

(** X4: [_make_trainable] undoes a freeze whatever [n] and [train_bn]
    were: thawing the module that [_recursive_freeze] or [freeze] has
    worked on gives the same flags and modes as thawing it directly. *)
Theorem make_trainable_undoes_freeze module (n : option Z) train_bn h :
  _make_trainable (fst (_recursive_freeze module train_bn h))
                  (snd (_recursive_freeze module train_bn h))
  = _make_trainable module h
  /\ _make_trainable (fst (freeze module n train_bn h))
                     (snd (freeze module n train_bn h))
     = _make_trainable module h.
Proof.
  split; rewrite !make_trainable_split; f_equal.
  - rewrite recursive_freeze_split. apply train_freeze_modes.
  - unfold thaw at 1.
    rewrite recursive_freeze_split at 1. cbn [fst].
    rewrite parameters_freeze_modes.
    apply thaw_absorbs. intros p Hp. by apply recursive_freeze_frame_outside.
  - apply train_after_freeze.
  - unfold thaw at 1. rewrite parameters_after_freeze.
    apply thaw_absorbs. intros p Hp. by apply freeze_frame_outside.
Qed.

(** ** What the collector can yield *)

(** A parameter that some assignment reaches ends with the value of one
    of the assignments that reach it. *)
Lemma assign_reached ws (h : gmap positive bool) p :
  p ∈ flat_map fst ws ->
  exists w, w ∈ ws /\ p ∈ w.1 /\ assign ws h !! p = Some w.2.
Proof.
  revert h. induction ws as [|w ws IH]; intros h Hp.
  - by apply not_elem_of_nil in Hp.
  - rewrite assign_cons.
    destruct (decide (p ∈ flat_map fst ws)) as [Hlater|Hnone].
    + destruct (IH (set_requires_grad w.2 w.1 h) Hlater) as (w' & Hw' & Hin & Hv).
      exists w'. split; [set_solver|done].
    + simpl in Hp. apply elem_of_app in Hp as [Hin|?]; [|done].
      exists w. split; [set_solver|]. split; [done|].
      rewrite assign_frame.
      * by apply lookup_set_requires_grad_in.
      * intros w' Hw' Hin'. apply Hnone, elem_of_flat_map_list. eauto.
Qed.

Lemma elem_of_filter_params module train_bn h p :
  p ∈ filter_params module train_bn h <->
  exists leaf, leaf ∈ leaves module /\ kept train_bn leaf = false
               /\ p ∈ parameters leaf /\ requires_grad h p = true.
Proof.
  rewrite filter_params_leaves, elem_of_flat_map_list. unfold kept.
  split.
  - intros (leaf & Hleaf & Hp). exists leaf.
    destruct (bn_type leaf && train_bn); [by apply not_elem_of_nil in Hp|].
    apply list_elem_of_In, filter_In in Hp as [Hp Hg].
    by rewrite <- list_elem_of_In in Hp.
  - intros (leaf & Hleaf & Hk & Hp & Hg). exists leaf. split; [done|].
    rewrite Hk. apply list_elem_of_In, filter_In. by rewrite <- list_elem_of_In.
Qed.

(** X5: right after [_recursive_freeze(module, train_bn)] the collector
    finds nothing to yield in the module, except a parameter that is tied
    to a normalization leaf which the freeze kept trainable.  After a
    freeze with [train_bn = False] it yields nothing at all, whatever its
    own flag. *)
Theorem filter_params_after_recursive_freeze module train_bn train_bn' h :
  (forall p,
     p ∈ filter_params (fst (_recursive_freeze module train_bn h)) train_bn'
                       (snd (_recursive_freeze module train_bn h)) ->
     exists leaf, leaf ∈ leaves module /\ bn_type leaf && train_bn = true
                  /\ p ∈ parameters leaf)
  /\ filter_params (fst (_recursive_freeze module false h)) train_bn'
                   (snd (_recursive_freeze module false h)) = [].
Proof.
  assert (forall b p,
     p ∈ filter_params (fst (_recursive_freeze module b h)) train_bn'
                       (snd (_recursive_freeze module b h)) ->
     exists leaf, leaf ∈ leaves module /\ bn_type leaf && b = true
                  /\ p ∈ parameters leaf) as Hgen.
  { intros b p Hp. apply elem_of_filter_params in Hp as (l & Hl & _ & Hp & Hg).
    rewrite recursive_freeze_split in Hl, Hg. cbn [fst snd] in Hl, Hg.
    rewrite leaves_freeze_modes in Hl.
    apply list_elem_of_fmap in Hl as (l0 & -> & Hl0).
    rewrite parameters_train in Hp.
    rewrite foldl_freeze_leaf_assign in Hg.
    destruct (assign_reached
                (map (fun leaf => (parameters leaf, kept b leaf)) (leaves module))
                h p) as (w & Hw & Hin & Hv).
    { apply elem_of_flat_map_list. exists (parameters l0, kept b l0).
      split; [|done]. apply list_elem_of_fmap. by exists l0. }
    apply list_elem_of_fmap in Hw as (l1 & -> & Hl1).
    exists l1. split; [done|]. split; [|done].
    unfold requires_grad in Hg. rewrite Hv in Hg. exact Hg. }
  split; [apply Hgen|].
  apply elem_of_nil_inv. intros p Hp.
  destruct (Hgen false p Hp) as (leaf & _ & Hk & _).
  by rewrite andb_false_r in Hk.
Qed.

(** ** The collector yields parameters of the module, in walk order *)

Lemma memo_dedup_sublist memo (l : list positive) :
  memo_dedup memo l `sublist_of` l.
Proof.
  revert memo. induction l as [|p l IH]; intros memo; simpl; [done|].
  destruct (decide (p ∈ memo)).
  - by apply sublist_cons.
  - by apply sublist_skip.
Qed.

Lemma parameters_sublist module :
  parameters module `sublist_of` subtree_parameters module.
Proof. apply memo_dedup_sublist. Qed.

Lemma list_filter_sublist {A} (f : A -> bool) l : List.filter f l `sublist_of` l.
Proof.
  induction l as [|x l IH]; simpl; [done|].
  destruct (f x); [by apply sublist_skip|by apply sublist_cons].
Qed.

Lemma flat_map_sublist {A B} (f g : A -> list B) l :
  Forall (fun x => f x `sublist_of` g x) l ->
  flat_map f l `sublist_of` flat_map g l.
Proof.
  induction 1 as [|x l Hx _ IH]; simpl; [done|]. by apply sublist_app.
Qed.

Lemma filter_params_sublist module train_bn h :
  filter_params module train_bn h `sublist_of` subtree_parameters module.
Proof.
  induction module as [bn tr ps cs IH] using Module_ind.
  destruct cs as [|c cs].
  - simpl. destruct (negb (bn && train_bn)); simpl; [|apply sublist_nil_l].
    etrans; [apply list_filter_sublist|]. apply parameters_sublist.
  - change (filter_params (MkModule bn tr ps (c :: cs)) train_bn h)
      with (flat_map (fun child => filter_params child train_bn h) (c :: cs)).
    rewrite subtree_parameters_eq. apply sublist_inserts_l.
    by apply flat_map_sublist.
Qed.

(** X6: [filter_params] yields a sub-sequence of the parameters of the
    module in the order of the pre-order walk, every one of them
    trainable.  So a module without tied weights never has a parameter
    yielded twice. *)
Theorem filter_params_yields_trainable module train_bn h :
  filter_params module train_bn h `sublist_of` subtree_parameters module
  /\ Forall (fun p => requires_grad h p = true /\ p ∈ parameters module)
            (filter_params module train_bn h)
  /\ (NoDup (subtree_parameters module) ->
      NoDup (filter_params module train_bn h)).
Proof.
  split; [apply filter_params_sublist|]. split.
  - apply Forall_forall. intros p Hp.
    apply elem_of_filter_params in Hp as (leaf & Hleaf & _ & Hp & Hg).
    split; [done|]. by eapply leaves_parameters.
  - intros Hnd. eapply sublist_NoDup; [exact Hnd|apply filter_params_sublist].
Qed.

(** The collector on tied weights: the parameter shared by two leaves is
    yielded once for each. *)
Example filter_params_tied_weights :
  let net := MkModule false true []
               [MkModule false true [1%positive] [];
                MkModule false true [1%positive; 2%positive] []] in
  let h : gmap positive bool :=
    <[2%positive := true]> (<[1%positive := true]> ∅) in
  filter_params net true h = [1%positive; 1%positive; 2%positive].
Proof. vm_compute. reflexivity. Qed.

(** ** The optimizer built over the trainable parameters *)

Lemma elem_of_list_filter {A} (f : A -> bool) l x :
  x ∈ List.filter f l <-> x ∈ l /\ f x = true.
Proof. by rewrite !list_elem_of_In, filter_In. Qed.

Lemma occurrences_if (l : list positive) p :
  NoDup l ->
  length (List.filter (Pos.eqb p) l) = if bool_decide (p ∈ l) then 1%nat else 0%nat.
Proof.
  intros Hnd. case_bool_decide.
  - by apply occurrences_NoDup.
  - by apply occurrences_notin.
Qed.

Lemma occurrences_in_filter f (l : list positive) p :
  NoDup l ->
  length (List.filter (Pos.eqb p) (List.filter f l))
  = if bool_decide (p ∈ l) && f p then 1%nat else 0%nat.
Proof.
  intros Hnd. rewrite occurrences_if.
  - case_bool_decide as Hin; rewrite elem_of_list_filter in Hin.
    + destruct Hin as [Hin ->]. by rewrite bool_decide_eq_true_2.
    + case_bool_decide; [|done]. destruct (f p); [|done]. exfalso. auto.
  - eapply sublist_NoDup; [exact Hnd|apply list_filter_sublist].
Qed.

Lemma memberships_single ps lr p :
  memberships (MkOptimizer [MkParamGroup ps lr]) p
  = length (List.filter (Pos.eqb p) ps).
Proof. unfold memberships. simpl. by rewrite app_nil_r. Qed.

(** X7: [configure_optimizers] returns an optimizer exactly when the
    learning rate passes Adam's check [0.0 <= lr] and some parameter of
    the module requires grad; a negative rate, NaN, or a module without a
    trainable parameter ends in [ValueError].  The optimizer it returns has
    one group, at rate [lr], that holds every parameter of the module that
    requires grad, once each and in walk order, and no other parameter. *)
Theorem configure_optimizers_one_group self lr h :
  match configure_optimizers self lr h with
  | Some optimizer =>
      (0 <=? lr)%float = true
      /\ param_groups optimizer
         = [MkParamGroup (List.filter (requires_grad h) (parameters self)) lr]
      /\ (exists p, p ∈ parameters self /\ requires_grad h p = true)
      /\ forall p,
           memberships optimizer p
           = if bool_decide (p ∈ parameters self) && requires_grad h p
             then 1%nat else 0%nat
  | None =>
      (0 <=? lr)%float = false
      \/ Forall (fun p => requires_grad h p = false) (parameters self)
  end.
Proof.
  unfold configure_optimizers.
  destruct (0 <=? lr)%float; [|by left].
  destruct (List.filter (requires_grad h) (parameters self)) as [|q ps] eqn:E.
  - right. apply Forall_forall. intros p Hp.
    destruct (requires_grad h p) eqn:Hg; [|done].
    assert (p ∈ List.filter (requires_grad h) (parameters self)) as Hin
      by by apply elem_of_list_filter.
    rewrite E in Hin. by apply not_elem_of_nil in Hin.
  - split; [done|]. split; [done|]. split.
    + exists q. apply elem_of_list_filter. rewrite E. set_solver.
    + intros p. rewrite memberships_single, <- E.
      apply occurrences_in_filter, NoDup_parameters.
Qed.

(** Adam's check of the rate: a negative rate and NaN are refused, zero
    and negative zero pass. *)
Example configure_optimizers_rates :
  let net := MkModule false true [1%positive] [] in
  let h : gmap positive bool := <[1%positive := true]> ∅ in
  configure_optimizers net (-1)%float h = None
  /\ configure_optimizers net nan h = None
  /\ configure_optimizers net 0%float h
     = Some (MkOptimizer [MkParamGroup [1%positive] 0%float])
  /\ configure_optimizers net (-0)%float h
     = Some (MkOptimizer [MkParamGroup [1%positive] (-0)%float])
  /\ configure_optimizers net 20%float (<[1%positive := false]> ∅) = None.
Proof. repeat split; vm_compute; reflexivity. Qed.

(** ** Freeze, build the optimizer, unfreeze a frozen child *)

Lemma leaves_parameters_sublist module :
  flat_map parameters (leaves module) `sublist_of` subtree_parameters module.
Proof.
  induction module as [bn tr ps cs IH] using Module_ind.
  destruct cs as [|c cs].
  - simpl. rewrite app_nil_r. apply parameters_sublist.
  - change (leaves (MkModule bn tr ps (c :: cs))) with (flat_map leaves (c :: cs)).
    rewrite flat_map_flat_map, subtree_parameters_eq.
    apply sublist_inserts_l. by apply flat_map_sublist.
Qed.

Lemma NoDup_flat_map_inj {A} (g : A -> list positive) l x y p :
  NoDup (flat_map g l) -> x ∈ l -> y ∈ l -> p ∈ g x -> p ∈ g y -> x = y.
Proof.
  induction l as [|a l IH]; intros Hnd Hx Hy Hpx Hpy.
  - by apply not_elem_of_nil in Hx.
  - simpl in Hnd. apply NoDup_app in Hnd as (_ & Hdisj & Hnd).
    apply elem_of_cons in Hx as [->|Hx]; apply elem_of_cons in Hy as [->|Hy].
    + done.
    + exfalso. apply (Hdisj p Hpx), elem_of_flat_map_list. eauto.
    + exfalso. apply (Hdisj p Hpy), elem_of_flat_map_list. eauto.
    + by apply IH.
Qed.

Lemma flat_map_fst_map {A} (g : A -> list positive) (v : A -> bool) l :
  flat_map fst (map (fun x => (g x, v x)) l) = flat_map g l.
Proof. induction l as [|x l IH]; [done|]. simpl. by rewrite IH. Qed.

Lemma NoDup_children module :
  NoDup (subtree_parameters module) ->
  NoDup (flat_map subtree_parameters (children module)).
Proof.
  rewrite subtree_parameters_eq. intros Hnd.
  by apply NoDup_app in Hnd as (_ & _ & Hnd).
Qed.

(** Without tied weights no parameter is assigned twice by [freeze]. *)
Lemma freeze_writes_NoDup module train_bn i :
  NoDup (subtree_parameters module) ->
  NoDup (flat_map fst
           (map (fun leaf => (parameters leaf, kept train_bn leaf))
                (flat_map leaves (take i (children module)))
            ++ map (fun c => (parameters c, true)) (drop i (children module)))).
Proof.
  intros Hnd. apply NoDup_children in Hnd.
  eapply sublist_NoDup; [exact Hnd|].
  rewrite flat_map_app, !flat_map_fst_map.
  rewrite <- (take_drop i (children module)) at 3.
  rewrite flat_map_app. apply sublist_app.
  - rewrite flat_map_flat_map. apply flat_map_sublist, Forall_forall.
    intros c _. apply leaves_parameters_sublist.
  - apply flat_map_sublist, Forall_forall. intros c _. apply parameters_sublist.
Qed.

(** Without tied weights and with every parameter trainable at first,
    the parameters of a frozen child that [freeze] leaves frozen are those
    of its leaves other than kept normalization leaves. *)
Lemma frozen_child_flags module (n : option Z) train_bn h c p :
  NoDup (subtree_parameters module) ->
  Forall (fun p => requires_grad h p = true) (parameters module) ->
  c ∈ slice_to (children module)
        (match n with
         | None => Z.of_nat (length (children module))
         | Some k => k
         end) ->
  p ∈ parameters c ->
  requires_grad (snd (freeze module n train_bn h)) p = false <->
  exists leaf, leaf ∈ leaves c /\ bn_type leaf && train_bn = false
               /\ p ∈ parameters leaf.
Proof.
  intros Hnd Hall Hc Hp. unfold slice_to in Hc.
  rewrite freeze_assign. cbn [snd].
  set (i := adjust_index (length (children module))
              (match n with
               | None => Z.of_nat (length (children module))
               | Some k => k
               end)) in *.
  set (ws := map (fun leaf => (parameters leaf, kept train_bn leaf))
                 (flat_map leaves (take i (children module)))
             ++ map (fun c => (parameters c, true)) (drop i (children module))).
  assert (NoDup (flat_map fst ws)) as Hws by by apply freeze_writes_NoDup.
  split.
  - intros Hfalse.
    assert (requires_grad h p = true) as Hinit.
    { rewrite Forall_forall in Hall. apply Hall.
      apply (parameters_child _ c); [by eapply subseteq_take|done]. }
    destruct (decide (p ∈ flat_map fst ws)) as [Hreach|Hnone].
    + destruct (assign_reached ws h p Hreach) as (w & Hw & Hin & Hv).
      unfold requires_grad in Hfalse. rewrite Hv in Hfalse. simpl in Hfalse.
      apply elem_of_app in Hw as [Hw|Hw].
      * apply list_elem_of_fmap in Hw as (leaf & -> & Hleaf).
        apply elem_of_flat_map_list in Hleaf as (c' & Hc' & Hleaf).
        assert (c' = c) as ->.
        { apply (NoDup_flat_map_inj subtree_parameters (children module) c' c p).
          - by apply NoDup_children.
          - by eapply subseteq_take.
          - by eapply subseteq_take.
          - apply elem_of_parameters. by eapply leaves_parameters.
          - by apply elem_of_parameters. }
        by exists leaf.
      * apply list_elem_of_fmap in Hw as (c' & -> & _). discriminate.
    + exfalso. unfold requires_grad in Hfalse, Hinit.
      rewrite assign_frame in Hfalse; [congruence|].
      intros w Hw Hin. apply Hnone, elem_of_flat_map_list. eauto.
  - intros (leaf & Hleaf & Hk & Hin). unfold requires_grad.
    rewrite (assign_NoDup ws h (parameters leaf) (kept train_bn leaf) p);
      [by unfold kept; rewrite Hk|done| |done].
    apply elem_of_app. left. apply list_elem_of_fmap. exists leaf.
    split; [done|]. apply elem_of_flat_map_list. by exists c.
Qed.

(** What [_unfreeze_and_add_param_group] collects from a child that the
    freeze has worked on is what it collects from the child as it was. *)
Lemma collected_after_freeze_modes train_bn unit :
  flat_map (fun leaf => if bn_type leaf && train_bn then [] else parameters leaf)
           (leaves (map_leaves (fun leaf => train (kept train_bn leaf) leaf) unit))
  = flat_map (fun leaf => if bn_type leaf && train_bn then [] else parameters leaf)
             (leaves unit).
Proof.
  rewrite leaves_freeze_modes.
  induction (leaves unit) as [|l ls IH]; [done|].
  simpl. by rewrite IH, bn_type_train, parameters_train.
Qed.

Lemma elem_of_collected train_bn unit p :
  p ∈ flat_map (fun leaf => if bn_type leaf && train_bn then [] else parameters leaf)
               (leaves unit)
  <-> exists leaf, leaf ∈ leaves unit /\ bn_type leaf && train_bn = false
                   /\ p ∈ parameters leaf.
Proof.
  rewrite elem_of_flat_map_list. split.
  - intros (leaf & Hleaf & Hp). exists leaf.
    destruct (bn_type leaf && train_bn); [by apply not_elem_of_nil in Hp|done].
  - intros (leaf & Hleaf & Hk & Hp). exists leaf. by rewrite Hk.
Qed.

Lemma collected_sublist train_bn unit :
  flat_map (fun leaf => if bn_type leaf && train_bn then [] else parameters leaf)
           (leaves unit)
  `sublist_of` subtree_parameters unit.
Proof.
  etrans; [|apply leaves_parameters_sublist].
  apply flat_map_sublist, Forall_forall. intros leaf _.
  destruct (bn_type leaf && train_bn); [apply sublist_nil_l|done].
Qed.

Lemma NoDup_child module c :
  NoDup (subtree_parameters module) -> c ∈ children module ->
  NoDup (subtree_parameters c).
Proof.
  intros Hnd Hc. apply NoDup_children in Hnd.
  induction (children module) as [|x l IH]; [by apply not_elem_of_nil in Hc|].
  simpl in Hnd. apply NoDup_app in Hnd as (Hx & _ & Hl).
  apply elem_of_cons in Hc as [->|Hc]; [done|by apply IH].
Qed.

(** The children that [freeze] has frozen, as it returns them. *)
Lemma frozen_children module (n : option Z) train_bn h unit :
  unit ∈ slice_to (children (fst (freeze module n train_bn h)))
           (match n with
            | None => Z.of_nat (length (children module))
            | Some k => k
            end) ->
  exists c, c ∈ slice_to (children module)
                  (match n with
                   | None => Z.of_nat (length (children module))
                   | Some k => k
                   end)
            /\ unit = map_leaves (fun leaf => train (kept train_bn leaf) leaf) c.
Proof.
  unfold slice_to. rewrite freeze_assign. cbn [fst].
  set (i := adjust_index (length (children module))
              (match n with
               | None => Z.of_nat (length (children module))
               | Some k => k
               end)).
  change (children (with_children module ?l)) with l.
  assert (i <= length (children module))%nat as Hi by apply adjust_index_le.
  rewrite length_app, !length_map, length_take, length_drop.
  replace (i `min` length (children module) + (length (children module) - i))%nat
    with (length (children module)) by lia.
  fold i.
  assert (length (map (map_leaves (fun leaf => train (kept train_bn leaf) leaf))
                      (take i (children module))) = i) as Hpre
    by (rewrite length_map, length_take; lia).
  rewrite take_app_length' by done.
  intros Hunit. apply list_elem_of_fmap in Hunit as (c & -> & Hc). by exists c.
Qed.

(** X8: the staged recipe keeps the groups of the optimizer in step with
    the flags.  Take a network without tied weights whose parameters are
    all trainable; [freeze] it, build the optimizer with
    [configure_optimizers], then run [_unfreeze_and_add_param_group], with
    the same [train_bn], on one of the children that were frozen.  The
    call returns, and afterwards a parameter of the network is in exactly
    one group when it is trainable and in no group when it is not. *)
Theorem staged_unfreeze_single_membership
    net (n : option Z) train_bn h lr optimizer unit lr' :
  NoDup (subtree_parameters net) ->
  Forall (fun p => requires_grad h p = true) (parameters net) ->
  let n_max := match n with
               | None => Z.of_nat (length (children net))
               | Some k => k
               end in
  let frozen := freeze net n train_bn h in
  configure_optimizers (fst frozen) lr (snd frozen) = Some optimizer ->
  unit ∈ slice_to (children (fst frozen)) n_max ->
  exists unit' h' optimizer',
    _unfreeze_and_add_param_group unit optimizer lr' train_bn (snd frozen)
    = Ok (unit', h', optimizer')
    /\ length (param_groups optimizer') = 2%nat
    /\ forall p,
         memberships optimizer' p
         = if bool_decide (p ∈ parameters net) && requires_grad h' p
           then 1%nat else 0%nat.
Proof.
  intros Hnd Hall n_max frozen Hopt Hunit.
  apply frozen_children in Hunit as (c & Hc & ->).
  set (F := map_leaves (fun leaf => train (kept train_bn leaf) leaf)).
  set (h1 := snd frozen) in *.
  assert (c ∈ children net) as Hcnet by (by eapply subseteq_take).
  (* the optimizer of the configuration *)
  unfold configure_optimizers in Hopt.
  destruct (0 <=? lr)%float; [|discriminate].
  unfold frozen in Hopt. rewrite parameters_after_freeze in Hopt. fold frozen in Hopt.
  fold h1 in Hopt.
  destruct (List.filter (requires_grad h1) (parameters net)) as [|q qs] eqn:EG;
    [discriminate|].
  injection Hopt as <-. rewrite <- EG. clear q qs EG.
  (* the call *)
  set (C := flat_map (fun leaf => if bn_type leaf && train_bn then []
                                  else parameters leaf) (leaves c)).
  assert (exists r,
    _unfreeze_and_add_param_group (F c)
      (MkOptimizer [MkParamGroup (List.filter (requires_grad h1) (parameters net)) lr])
      lr' train_bn h1
    = Ok (train true (F c), thaw h1 (F c),
          MkOptimizer
            [MkParamGroup (List.filter (requires_grad h1) (parameters net)) lr;
             MkParamGroup C r])) as [r Hcall].
  { unfold _unfreeze_and_add_param_group, _make_trainable.
    fold (thaw h1 (F c)). rewrite filter_params_after_thaw.
    unfold F at 3. rewrite collected_after_freeze_modes. fold C.
    destruct lr' as [l|]; simpl; eexists; reflexivity. }
  eexists _, _, _. split; [exact Hcall|]. split; [reflexivity|].
  (* counting *)
  intros p. unfold memberships. simpl.
  rewrite app_nil_r, List.filter_app, length_app.
  rewrite occurrences_in_filter by apply NoDup_parameters.
  assert (NoDup C) as HC.
  { eapply sublist_NoDup; [|apply collected_sublist]. by eapply NoDup_child. }
  rewrite (occurrences_if C) by done.
  assert (forall q, q ∈ C -> q ∈ parameters c) as HCc.
  { intros q Hq. apply elem_of_collected in Hq as (leaf & Hleaf & _ & Hq).
    by eapply leaves_parameters. }
  assert (requires_grad (thaw h1 (F c)) p
          = if bool_decide (p ∈ parameters c) then true else requires_grad h1 p)
    as ->.
  { unfold thaw, F. rewrite parameters_freeze_modes. case_bool_decide.
    - by apply requires_grad_set_in.
    - by apply requires_grad_set_notin. }
  pose proof (frozen_child_flags net n train_bn h c p Hnd Hall Hc) as Hflag.
  fold frozen in Hflag. fold h1 in Hflag.
  destruct (decide (p ∈ C)) as [HpC|HpC].
  - assert (p ∈ parameters c) as Hpc by auto.
    assert (p ∈ parameters net) as Hpn
      by (apply (parameters_child net c); assumption).
    assert (requires_grad h1 p = false) as ->.
    { apply (proj2 (Hflag Hpc)). by apply (proj1 (elem_of_collected train_bn c p)). }
    rewrite !bool_decide_eq_true_2 by done. by rewrite andb_false_r.
  - rewrite (bool_decide_eq_false_2 (p ∈ C)) by done. rewrite Nat.add_0_r.
    destruct (decide (p ∈ parameters c)) as [Hpc|Hpc];
      [|by rewrite (bool_decide_eq_false_2 (p ∈ parameters c))].
    assert (p ∈ parameters net) as Hpn
      by (apply (parameters_child net c); assumption).
    rewrite !bool_decide_eq_true_2 by done.
    destruct (requires_grad h1 p) eqn:Hg; [done|].
    exfalso. apply HpC, elem_of_collected. by apply (proj1 (Hflag Hpc)).
Qed.

(** X8 on three children, the second a normalization leaf kept
    trainable: two are frozen, the optimizer starts with the parameters 2
    and 3, and the stage unfreezes the first child. *)
Lemma staged_unfreeze_single_membership_witness :
  let net := MkModule false true []
               [MkModule false true [1%positive] [];
                MkModule true true [2%positive] [];
                MkModule false true [3%positive] []] in
  let h : gmap positive bool :=
    <[3%positive := true]> (<[2%positive := true]> (<[1%positive := true]> ∅)) in
  let optimizer := MkOptimizer [MkParamGroup [2%positive; 3%positive] 20%float] in
  let unit := MkModule false false [1%positive] [] in
  exists unit' h' optimizer',
    _unfreeze_and_add_param_group unit optimizer None true
                                  (snd (freeze net (Some 2) true h))
    = Ok (unit', h', optimizer')
    /\ length (param_groups optimizer') = 2%nat
    /\ forall p,
         memberships optimizer' p
         = if bool_decide (p ∈ parameters net) && requires_grad h' p
           then 1%nat else 0%nat.
Proof.
  intros net h optimizer unit.
  apply (staged_unfreeze_single_membership net (Some 2) true h 20%float).
  - apply (bool_decide_unpack _). vm_compute. exact I.
  - apply (bool_decide_unpack _). vm_compute. exact I.
  - vm_compute. reflexivity.
  - assert (slice_to (children (fst (freeze net (Some 2) true h))) 2
            = [unit; MkModule true true [2%positive] []]) as ->
      by (vm_compute; reflexivity).
    set_solver.
Defined.

(** X9: which parameters a freeze leaves frozen.  In a network without
    tied weights whose parameters were all trainable, a parameter of a
    child that [freeze] has frozen is frozen afterwards exactly when it
    belongs to a leaf of that child other than a normalization leaf under
    [train_bn]; a parameter registered on a module that has children stays
    trainable. *)
Theorem freeze_freezes_leaf_parameters module (n : option Z) train_bn h c p :
  NoDup (subtree_parameters module) ->
  Forall (fun p => requires_grad h p = true) (parameters module) ->
  c ∈ slice_to (children module)
        (match n with
         | None => Z.of_nat (length (children module))
         | Some k => k
         end) ->
  p ∈ parameters c ->
  (requires_grad (snd (freeze module n train_bn h)) p = false <->
   exists leaf, leaf ∈ leaves c /\ bn_type leaf && train_bn = false
                /\ p ∈ parameters leaf)
  /\ ((forall leaf, leaf ∈ leaves c -> p ∉ parameters leaf) ->
      requires_grad (snd (freeze module n train_bn h)) p = true).
Proof.
  intros Hnd Hall Hc Hp.
  pose proof (frozen_child_flags module n train_bn h c p Hnd Hall Hc Hp) as Hflag.
  split; [exact Hflag|].
  intros Hnone.
  destruct (requires_grad (snd (freeze module n train_bn h)) p) eqn:Hg; [done|].
  destruct (proj1 Hflag eq_refl) as (leaf & Hleaf & _ & Hin).
  by destruct (Hnone leaf Hleaf).
Qed.

(** X9 on a child made of a convolution-like leaf and a normalization
    leaf, with a parameter of its own: under [train_bn] only the
    parameter of the plain leaf is frozen. *)
Lemma freeze_freezes_leaf_parameters_witness :
  let block := MkModule false true [1%positive]
                 [MkModule false true [2%positive] [];
                  MkModule true true [3%positive] []] in
  let net := MkModule false true [] [block; MkModule false true [4%positive] []] in
  let h : gmap positive bool :=
    <[4%positive := true]>
      (<[3%positive := true]> (<[2%positive := true]> (<[1%positive := true]> ∅))) in
  requires_grad (snd (freeze net (Some 1) true h)) 1%positive = true.
Proof.
  intros block net h.
  apply (freeze_freezes_leaf_parameters net (Some 1) true h block 1%positive).
  - apply (bool_decide_unpack _). vm_compute. exact I.
  - apply (bool_decide_unpack _). vm_compute. exact I.
  - assert (slice_to (children net) 1 = [block]) as -> by reflexivity.
    set_solver.
  - apply elem_of_parameters. cbn. set_solver.
  - intros leaf Hleaf. cbn in Hleaf.
    rewrite !elem_of_cons in Hleaf. destruct Hleaf as [->|[->|Hleaf]].
    + rewrite elem_of_parameters. cbn. set_solver.
    + rewrite elem_of_parameters. cbn. set_solver.
    + by apply not_elem_of_nil in Hleaf.
Defined.

(** X5 on a weight tied between a plain leaf and a normalization leaf
    that the freeze keeps: the collector yields it right after the
    freeze, and the theorem names the normalization leaf. *)
Lemma filter_params_after_recursive_freeze_witness :
  let net := MkModule false true []
               [MkModule false true [1%positive] [];
                MkModule true true [1%positive] []] in
  let h : gmap positive bool := <[1%positive := true]> ∅ in
  filter_params (fst (_recursive_freeze net true h)) true
                (snd (_recursive_freeze net true h)) = [1%positive]
  /\ exists leaf, leaf ∈ leaves net /\ bn_type leaf && true = true
                  /\ 1%positive ∈ parameters leaf.
Proof.
  intros net h.
  assert (filter_params (fst (_recursive_freeze net true h)) true
                        (snd (_recursive_freeze net true h)) = [1%positive])
    as Hrun by (vm_compute; reflexivity).
  split; [exact Hrun|].
  apply (proj1 (filter_params_after_recursive_freeze net true true h)).
  rewrite Hrun. set_solver.
Defined.

(** X6 on a network without tied weights. *)
Lemma filter_params_yields_trainable_witness :
  let net := MkModule false true [4%positive]
               [MkModule false true [1%positive; 2%positive] [];
                MkModule true true [3%positive] []] in
  let h : gmap positive bool :=
    <[3%positive := true]> (<[2%positive := false]> (<[1%positive := true]> ∅)) in
  filter_params net false h = [1%positive; 3%positive]
  /\ NoDup (filter_params net false h).
Proof.
  intros net h. split; [vm_compute; reflexivity|].
  apply (proj2 (proj2 (filter_params_yields_trainable net false h))).
  apply (bool_decide_unpack _). vm_compute. exact I.
Defined.

(** X17: the collector mirrors the freeze.  In a module without tied
    weights, [_unfreeze_and_add_param_group] run after
    [_recursive_freeze] with the same [train_bn] collects, among the
    parameters of the leaves, exactly those that the freeze had frozen. *)
Theorem unfreeze_collects_what_was_frozen module train_bn h p :
  NoDup (subtree_parameters module) ->
  p ∈ flat_map parameters (leaves module) ->
  let frozen := _recursive_freeze module train_bn h in
  p ∈ filter_params (train true (fst frozen)) train_bn
                    (thaw (snd frozen) (fst frozen))
  <-> requires_grad (snd frozen) p = false.
Proof.
  intros Hnd Hp frozen. unfold frozen.
  rewrite filter_params_after_thaw, recursive_freeze_split. cbn [fst snd].
  rewrite collected_after_freeze_modes, elem_of_collected.
  rewrite foldl_freeze_leaf_assign.
  set (ws := map (fun leaf => (parameters leaf, kept train_bn leaf))
                 (leaves module)).
  assert (NoDup (flat_map fst ws)) as Hws.
  { unfold ws. rewrite flat_map_fst_map.
    eapply sublist_NoDup; [exact Hnd|apply leaves_parameters_sublist]. }
  assert (forall leaf, leaf ∈ leaves module -> p ∈ parameters leaf ->
                       requires_grad (assign ws h) p = kept train_bn leaf)
    as Hflag.
  { intros leaf Hleaf Hin. unfold requires_grad.
    rewrite (assign_NoDup ws h (parameters leaf) (kept train_bn leaf) p);
      [done|done| |done].
    apply list_elem_of_fmap. by exists leaf. }
  split.
  - intros (leaf & Hleaf & Hk & Hin). by rewrite (Hflag leaf).
  - intros Hfalse. apply elem_of_flat_map_list in Hp as (leaf & Hleaf & Hin).
    exists leaf. split; [done|]. split; [|done].
    rewrite (Hflag leaf) in Hfalse by done. exact Hfalse.
Qed.

Lemma unfreeze_collects_what_was_frozen_witness :
  let net := MkModule false true []
               [MkModule false true [1%positive] [];
                MkModule true true [2%positive] []] in
  let h : gmap positive bool :=
    <[2%positive := true]> (<[1%positive := true]> ∅) in
  1%positive ∈ filter_params (train true (fst (_recursive_freeze net true h))) true
                 (thaw (snd (_recursive_freeze net true h))
                       (fst (_recursive_freeze net true h))).
Proof.
  intros net h.
  apply (unfreeze_collects_what_was_frozen net true h 1%positive).
  - apply (bool_decide_unpack _). vm_compute. exact I.
  - apply (bool_decide_unpack _). vm_compute. exact I.
  - vm_compute. reflexivity.
Defined.

(** ** Any number of stages after one freeze *)

Import Stages.












(** * Properties of scripts/generate_env.py *)

Import GenerateEnv.

(** ** Stripping *)

Lemma isspace_eq_sign : isspace "=" = false.
Proof. reflexivity. Qed.

Lemma lstrip_length s : (length (lstrip s) <= length s)%nat.
Proof.
  induction s as [|c s IH]; simpl; [lia|].
  destruct (isspace c); simpl; lia.
Qed.

(** A string that [lstrip] leaves alone: empty, or starting with a
    character that is not white space. *)
Lemma lstrip_fixed s :
  lstrip s = s <-> match s with [] => True | c :: _ => isspace c = false end.
Proof.
  destruct s as [|c s]; simpl; [done|].
  destruct (isspace c) eqn:E; [|done].
  split; [|done]. intros Heq.
  pose proof (lstrip_length s) as Hlen. rewrite Heq in Hlen. simpl in Hlen. lia.
Qed.

Lemma lstrip_lstrip s : lstrip (lstrip s) = lstrip s.
Proof.
  induction s as [|c s IH]; simpl; [done|].
  destruct (isspace c) eqn:E; [done|]. simpl. by rewrite E.
Qed.

Lemma lstrip_app_anchor s c t :
  lstrip s = s -> isspace c = false -> lstrip (s ++ c :: t) = s ++ c :: t.
Proof.
  intros Hs Hc. apply lstrip_fixed. apply lstrip_fixed in Hs.
  by destruct s.
Qed.

Lemma lstrip_fixed_prefix s c t :
  lstrip (s ++ c :: t) = s ++ c :: t -> lstrip s = s.
Proof.
  intros H. apply lstrip_fixed. apply lstrip_fixed in H. by destruct s.
Qed.

Lemma rstrip_fixed s : rstrip s = s <-> lstrip (rev s) = rev s.
Proof.
  unfold rstrip. split; intros H.
  - rewrite <- H at 2. by rewrite rev_involutive.
  - by rewrite H, rev_involutive.
Qed.

Lemma rstrip_rstrip s : rstrip (rstrip s) = rstrip s.
Proof. unfold rstrip. by rewrite rev_involutive, lstrip_lstrip. Qed.

Lemma rstrip_app_anchor s c t :
  rstrip t = t -> isspace c = false -> rstrip (s ++ c :: t) = s ++ c :: t.
Proof.
  intros Ht Hc. apply rstrip_fixed. apply rstrip_fixed in Ht.
  rewrite rev_app_distr. simpl. rewrite <- app_assoc. simpl.
  by apply lstrip_app_anchor.
Qed.

Lemma rstrip_fixed_suffix s c t :
  rstrip (s ++ c :: t) = s ++ c :: t -> rstrip t = t.
Proof.
  intros H. apply rstrip_fixed. apply rstrip_fixed in H.
  rewrite rev_app_distr in H. simpl in H. rewrite <- app_assoc in H. simpl in H.
  by eapply lstrip_fixed_prefix.
Qed.

(** [rstrip] gives a prefix, so it keeps the first character of a string
    it does not empty. *)
Lemma lstrip_suffix s : exists w, s = w ++ lstrip s.
Proof.
  induction s as [|c s [w IH]]; simpl; [by exists []|].
  destruct (isspace c); [|by exists []].
  exists (c :: w). simpl. by rewrite <- IH.
Qed.

Lemma rstrip_prefix s : exists w, s = rstrip s ++ w.
Proof.
  unfold rstrip. destruct (lstrip_suffix (rev s)) as [w Hw].
  exists (rev w). rewrite <- rev_app_distr, <- Hw. by rewrite rev_involutive.
Qed.

Lemma strip_fixed_both s : lstrip (strip s) = strip s /\ rstrip (strip s) = strip s.
Proof.
  unfold strip. split; [|apply rstrip_rstrip].
  destruct (rstrip_prefix (lstrip s)) as [w Hw].
  apply lstrip_fixed.
  pose proof (lstrip_lstrip s) as Hl. apply lstrip_fixed in Hl.
  rewrite Hw in Hl. by destruct (rstrip (lstrip s)).
Qed.

Lemma strip_fixed s : lstrip s = s -> rstrip s = s -> strip s = s.
Proof. unfold strip. by intros -> ->. Qed.

Lemma strip_item k v :
  lstrip k = k -> rstrip v = v -> strip (k ++ "="%char :: v) = k ++ "="%char :: v.
Proof.
  intros Hk Hv. apply strip_fixed.
  - by apply lstrip_app_anchor.
  - by apply rstrip_app_anchor.
Qed.

(** ** Splitting at a character *)

Lemma split_nonempty sep s : split sep s <> [].
Proof.
  induction s as [|c s IH]; simpl; [done|].
  destruct (decide (c = sep)); [done|]. by destruct (split sep s).
Qed.

Lemma split_length sep s :
  length (split sep s) = S (count_occ ascii_dec s sep).
Proof.
  induction s as [|c s IH]; simpl; [done|].
  destruct (decide (c = sep)) as [->|Hne].
  - destruct (ascii_dec sep sep); [|done]. simpl. by rewrite IH.
  - destruct (ascii_dec c sep); [done|].
    destruct (split sep s) eqn:E; [by apply split_nonempty in E|].
    simpl in *. exact IH.
Qed.

Lemma split_no_sep sep s : sep ∉ s -> split sep s = [s].
Proof.
  induction s as [|c s IH]; intros Hs; simpl; [done|].
  destruct (decide (c = sep)) as [->|Hne]; [set_solver|].
  rewrite IH by set_solver. reflexivity.
Qed.

Lemma split_two sep k v :
  sep ∉ k -> sep ∉ v -> split sep (k ++ sep :: v) = [k; v].
Proof.
  intros Hk Hv. induction k as [|c k IH]; simpl.
  - destruct (decide (sep = sep)); [|done]. by rewrite split_no_sep.
  - destruct (decide (c = sep)) as [->|Hne]; [set_solver|].
    rewrite IH by set_solver. reflexivity.
Qed.

Lemma split_two_inv sep s k v :
  split sep s = [k; v] -> s = k ++ sep :: v /\ (sep ∉ k) /\ (sep ∉ v).
Proof.
  revert k. induction s as [|c s IH]; intros k Hs; simpl in Hs; [done|].
  destruct (decide (c = sep)) as [->|Hne].
  - injection Hs as <- Hs.
    assert (count_occ ascii_dec s sep = 0%nat) as Hcount.
    { pose proof (split_length sep s) as Hlen. rewrite Hs in Hlen.
      simpl in Hlen. lia. }
    assert (sep ∉ s) as Hnot.
    { rewrite list_elem_of_In. by apply (count_occ_not_In ascii_dec). }
    rewrite split_no_sep in Hs by done. injection Hs as <-.
    split; [done|]. split; [apply not_elem_of_nil|done].
  - destruct (split sep s) as [|p ps] eqn:E; [done|].
    injection Hs as <- ->.
    destruct (IH p eq_refl) as (-> & Hp & Hv).
    split; [done|]. split; [set_solver|done].
Qed.

Lemma count_occ_lstrip c s :
  isspace c = false ->
  count_occ ascii_dec (lstrip s) c = count_occ ascii_dec s c.
Proof.
  intros Hc. induction s as [|x s IH]; simpl; [done|].
  destruct (isspace x) eqn:E; [|done].
  destruct (ascii_dec x c) as [->|_]; [congruence|done].
Qed.

Lemma count_occ_strip c s :
  isspace c = false ->
  count_occ ascii_dec (strip s) c = count_occ ascii_dec s c.
Proof.
  intros Hc. unfold strip, rstrip.
  by rewrite count_occ_rev, count_occ_lstrip, count_occ_rev, count_occ_lstrip.
Qed.

(** The unpacking [key, value = line.strip().split('=')] goes through
    exactly on the lines with one ["="]. *)
Lemma unpack_two line :
  (exists key value, split "="%char (strip line) = [key; value])
  <-> (count_occ ascii_dec line "="%char = 1%nat).
Proof.
  rewrite <- (count_occ_strip "=" line) by done.
  pose proof (split_length "=" (strip line)) as Hlen.
  split.
  - intros (key & value & Hs). rewrite Hs in Hlen. simpl in Hlen. lia.
  - intros Hone. rewrite Hone in Hlen.
    destruct (split "=" (strip line)) as [|k [|v [|x l]]]; simpl in Hlen; try lia.
    by exists k, v.
Qed.

(** ** Dictionaries *)

Lemma setitem_fresh d key value :
  key ∉ d.*1 -> setitem d key value = d ++ [(key, value)].
Proof.
  induction d as [|[k v] d IH]; intros Hk; simpl; [done|].
  destruct (decide (k = key)) as [->|Hne]; [set_solver|].
  rewrite IH by set_solver. reflexivity.
Qed.

Lemma setitem_present_keys d key value :
  key ∈ d.*1 -> (setitem d key value).*1 = d.*1.
Proof.
  induction d as [|[k v] d IH]; intros Hk; [by apply not_elem_of_nil in Hk|].
  simpl. destruct (decide (k = key)) as [->|Hne]; [done|].
  csimpl. f_equal. apply IH. set_solver.
Qed.

Lemma setitem_NoDup d key value :
  NoDup d.*1 -> NoDup (setitem d key value).*1.
Proof.
  intros Hnd. destruct (decide (key ∈ d.*1)) as [Hin|Hout].
  - by rewrite setitem_present_keys.
  - rewrite setitem_fresh, fmap_app by done.
    apply NoDup_app. split; [done|]. split; [set_solver|apply NoDup_singleton].
Qed.

Lemma setitem_items d key value item :
  item ∈ setitem d key value -> item ∈ d \/ item = (key, value).
Proof.
  induction d as [|[k v] d IH]; simpl.
  - set_solver.
  - destruct (decide (k = key)) as [->|Hne]; set_solver.
Qed.

Lemma setitem_clean d key value :
  dotenv_clean d ->
  "="%char ∉ key -> "="%char ∉ value -> lstrip key = key -> rstrip value = value ->
  dotenv_clean (setitem d key value).
Proof.
  intros [Hnd Hall] Hk Hv Hlk Hrv. split.
  - by apply setitem_NoDup.
  - apply Forall_forall. intros item Hitem.
    apply setitem_items in Hitem as [Hitem| ->]; [|done].
    rewrite Forall_forall in Hall. by apply Hall.
Qed.

Lemma get_clean d key default :
  dotenv_clean d ->
  "="%char ∉ default -> rstrip default = default ->
  ("="%char ∉ get d key default)
  /\ rstrip (get d key default) = get d key default.
Proof.
  intros [_ Hall] Hd Hr.
  induction d as [|[k v] d IH]; simpl; [done|].
  apply Forall_cons in Hall as [Hitem Hall].
  destruct (decide (k = key)); [|by apply IH].
  simpl in Hitem. tauto.
Qed.

Lemma update_clean d other :
  dotenv_clean d -> dotenv_clean other -> dotenv_clean (update d other).
Proof.
  intros Hd [_ Hall]. revert d Hd.
  induction Hall as [|[k v] other Hitem _ IH]; intros d Hd; [done|].
  simpl. apply IH. simpl in Hitem. apply setitem_clean; tauto.
Qed.

Lemma dotenv_clean_nil : dotenv_clean [].
Proof. split; constructor. Qed.

(** ** Decoding *)

Lemma decode_lines_cons env_data line lines :
  decode_lines env_data (line :: lines) =
  match split "="%char (strip line) with
  | [key; value] => decode_lines (setitem env_data key value) lines
  | _ => ValueError
  end.
Proof. reflexivity. Qed.

Lemma decode_lines_accepts env_data lines :
  (exists env, decode_lines env_data lines = Return env)
  <-> Forall (fun line => count_occ ascii_dec line "="%char = 1%nat) lines.
Proof.
  revert env_data. induction lines as [|line lines IH]; intros env_data.
  - split; [constructor|]. intros _. by exists env_data.
  - rewrite decode_lines_cons, Forall_cons, <- unpack_two. split.
    + intros [env Henv].
      destruct (split "="%char (strip line)) as [|k [|v [|x l]]]; try done.
      split; [by exists k, v|]. apply (IH (setitem env_data k v)). by exists env.
    + intros [(k & v & ->) Hrest]. by apply IH.
Qed.

Lemma decode_lines_rejects env_data lines :
  decode_lines env_data lines = ValueError
  <-> Exists (fun line => count_occ ascii_dec line "="%char <> 1%nat) lines.
Proof.
  revert env_data. induction lines as [|line lines IH]; intros env_data.
  - split; [done|]. intros H. by apply Exists_nil in H.
  - rewrite decode_lines_cons, Exists_cons.
    destruct (decide (count_occ ascii_dec line "="%char = 1%nat)) as [Hone|Hbad].
    + destruct (proj2 (unpack_two line) Hone) as (k & v & ->).
      rewrite IH. tauto.
    + split; [by left|]. intros _.
      destruct (split "="%char (strip line)) as [|k [|v [|x l]]] eqn:E; try done.
      exfalso. apply Hbad, unpack_two. by exists k, v.
Qed.

(** X10: [_decode_dotenv] raises [ValueError] exactly when some line does
    not hold exactly one ["="]: a blank line, a comment, a value that
    itself contains ["="]. *)
Theorem decode_dotenv_rejects lines :
  _decode_dotenv lines = ValueError
  <-> Exists (fun line => count_occ ascii_dec line "="%char <> 1%nat) lines.
Proof. apply decode_lines_rejects. Qed.

Example decode_dotenv_rejects_run :
  _decode_dotenv [lit "A=1"; lit ""] = ValueError
  /\ _decode_dotenv [lit "# comment"] = ValueError
  /\ _decode_dotenv [lit "SECRET=abc=="] = ValueError
  /\ _decode_dotenv [lit "A=1"; lit "  B = 2  "; lit "A=3"]
     = Return [(lit "A", lit "3"); (lit "B ", lit " 2")].
Proof. repeat split. Qed.

Lemma decode_lines_clean env_data lines env :
  dotenv_clean env_data -> decode_lines env_data lines = Return env ->
  dotenv_clean env.
Proof.
  revert env_data. induction lines as [|line lines IH]; intros env_data Hc Hd.
  - by injection Hd as <-.
  - rewrite decode_lines_cons in Hd.
    destruct (split "="%char (strip line)) as [|k [|v [|x l]]] eqn:E; try done.
    apply split_two_inv in E as (Hline & Hk & Hv).
    destruct (strip_fixed_both line) as [Hl Hr]. rewrite Hline in Hl, Hr.
    apply (IH (setitem env_data k v)); [|done].
    apply setitem_clean; try done.
    + by eapply lstrip_fixed_prefix.
    + by eapply rstrip_fixed_suffix.
Qed.

Lemma decode_lines_items env_data lines items :
  NoDup (env_data.*1 ++ items.*1) ->
  Forall (fun item => ("="%char ∉ item.1) /\ ("="%char ∉ item.2)) items ->
  map strip lines = dotenv_lines items ->
  decode_lines env_data lines = Return (env_data ++ items).
Proof.
  revert env_data lines.
  induction items as [|[k v] items IH]; intros env_data lines Hnd Hall Hlines.
  - destruct lines; [|done]. by rewrite app_nil_r.
  - destruct lines as [|line lines]; [done|].
    injection Hlines as Hline Hlines.
    apply Forall_cons in Hall as [[Hk Hv] Hall]. simpl in Hk, Hv.
    rewrite decode_lines_cons, Hline. simpl.
    change (k ++ lit "=" ++ v) with (k ++ "="%char :: v).
    rewrite split_two by done.
    csimpl in Hnd.
    rewrite setitem_fresh.
    + rewrite (IH (env_data ++ [(k, v)]) lines); [by rewrite <- app_assoc|  |done|done].
      rewrite fmap_app. csimpl. by rewrite <- app_assoc.
    + apply NoDup_app in Hnd as (_ & Hdisj & _). intros Hin.
      apply (Hdisj k Hin). set_solver.
Qed.

Lemma decode_encoded_lines env_data lines :
  NoDup env_data.*1 ->
  Forall (fun item => ("="%char ∉ item.1) /\ ("="%char ∉ item.2)) env_data ->
  map strip lines = dotenv_lines env_data ->
  _decode_dotenv lines = Return env_data.
Proof.
  intros Hnd Hall Hlines. unfold _decode_dotenv.
  by rewrite (decode_lines_items [] lines env_data).
Qed.

(** X11: decoding gives back what was encoded.  For a dictionary without
    ["="] in keys and values, lines that are, once stripped, the lines
    [_encode_dotenv] builds decode to that dictionary, in the same order.
    White space around a line, such as the line end that [readlines]
    keeps, does not matter. *)
Theorem decode_dotenv_of_encoded env_data lines :
  NoDup env_data.*1 ->
  Forall (fun item => ("="%char ∉ item.1) /\ ("="%char ∉ item.2)) env_data ->
  map strip lines = dotenv_lines env_data ->
  _decode_dotenv lines = Return env_data.
Proof. apply decode_encoded_lines. Qed.

Lemma decode_dotenv_of_encoded_witness :
  let env_data := [(lit "HOST", lit "localhost"); (lit "PORT", lit "3333")] in
  _decode_dotenv [(lit "HOST=localhost" ++ ["010"%char])%list; lit "PORT=3333"]
  = Return env_data.
Proof.
  intros env_data.
  apply (decode_dotenv_of_encoded env_data).
  - apply (bool_decide_unpack _). vm_compute. exact I.
  - apply (bool_decide_unpack _). vm_compute. exact I.
  - vm_compute. reflexivity.
Defined.

(** X12: what [_decode_dotenv] returns can be written and read again.
    The dictionary has no key twice, no ["="] in a key or a value, no
    white space in front of a key or behind a value; so the lines that
    [_encode_dotenv] builds from it are unchanged by [strip] and decode
    to the same dictionary. *)
Theorem decode_dotenv_clean lines env_data :
  _decode_dotenv lines = Return env_data ->
  dotenv_clean env_data
  /\ map strip (dotenv_lines env_data) = dotenv_lines env_data
  /\ _decode_dotenv (dotenv_lines env_data) = Return env_data.
Proof.
  intros Hd.
  assert (dotenv_clean env_data) as Hc
    by (eapply decode_lines_clean; [apply dotenv_clean_nil|exact Hd]).
  assert (map strip (dotenv_lines env_data) = dotenv_lines env_data) as Hs.
  { destruct Hc as [_ Hall]. unfold dotenv_lines. rewrite map_map.
    apply map_ext_Forall. eapply Forall_impl; [exact Hall|].
    intros [k v] (_ & _ & Hk & Hv). simpl in *. by apply strip_item. }
  split; [done|]. split; [done|].
  destruct Hc as [Hnd Hall].
  apply decode_encoded_lines; [done| |by rewrite Hs].
  eapply Forall_impl; [exact Hall|]. by intros item (? & ? & _).
Qed.

Lemma decode_dotenv_clean_witness :
  let lines := [lit "  A = 1 "; lit "B=2"; lit "A = 3"] in
  _decode_dotenv lines = Return [(lit "A ", lit " 3"); (lit "B", lit "2")]
  /\ _decode_dotenv (dotenv_lines [(lit "A ", lit " 3"); (lit "B", lit "2")])
     = Return [(lit "A ", lit " 3"); (lit "B", lit "2")].
Proof.
  intros lines.
  assert (_decode_dotenv lines = Return [(lit "A ", lit " 3"); (lit "B", lit "2")])
    as H by (vm_compute; reflexivity).
  split; [exact H|].
  exact (proj2 (proj2 (decode_dotenv_clean lines _ H))).
Defined.

(** ** A key given twice *)

Lemma get_setitem_eq d key value default :
  get (setitem d key value) key default = value.
Proof.
  induction d as [|[k v] d IH]; simpl.
  - by rewrite decide_True.
  - destruct (decide (k = key)) as [->|Hne]; simpl.
    + by rewrite decide_True.
    + by rewrite decide_False.
Qed.

Lemma get_setitem_ne d key key' value default :
  key <> key' -> get (setitem d key value) key' default = get d key' default.
Proof.
  intros Hne. induction d as [|[k v] d IH]; simpl.
  - by rewrite decide_False.
  - destruct (decide (k = key)) as [->|Hk]; simpl.
    + by rewrite !decide_False.
    + destruct (decide (k = key')); [done|exact IH].
Qed.

Lemma decode_lines_app env_data lines1 lines2 :
  decode_lines env_data (lines1 ++ lines2) =
  match decode_lines env_data lines1 with
  | Return env => decode_lines env lines2
  | ValueError => ValueError
  end.
Proof.
  revert env_data. induction lines1 as [|line lines1 IH]; intros env_data; [done|].
  rewrite <- app_comm_cons, !decode_lines_cons.
  destruct (split "="%char (strip line)) as [|k [|v [|x l]]]; try done; apply IH.
Qed.

Lemma decode_lines_get_frame env_data lines env key default :
  decode_lines env_data lines = Return env ->
  Forall (fun line => forall value,
            split "="%char (strip line) <> [key; value]) lines ->
  get env key default = get env_data key default.
Proof.
  revert env_data. induction lines as [|line lines IH]; intros env_data Hd Hall.
  - by injection Hd as <-.
  - rewrite decode_lines_cons in Hd. apply Forall_cons in Hall as [Hline Hall].
    destruct (split "="%char (strip line)) as [|k [|v [|x l]]] eqn:E; try done.
    rewrite (IH _ Hd Hall). apply get_setitem_ne. intros ->. by apply (Hline v).
Qed.

(** X13: when a key is given on several lines, the last one counts:
    [_decode_dotenv] returns for a key the value of the last line that
    sets it. *)
Theorem decode_dotenv_last_wins before line after key value env default :
  _decode_dotenv (before ++ line :: after) = Return env ->
  split "="%char (strip line) = [key; value] ->
  Forall (fun later => forall value',
            split "="%char (strip later) <> [key; value']) after ->
  get env key default = value.
Proof.
  unfold _decode_dotenv. intros Hd Hline Hafter.
  rewrite decode_lines_app in Hd.
  destruct (decode_lines [] before) as [env0|]; [|done].
  rewrite decode_lines_cons, Hline in Hd.
  rewrite (decode_lines_get_frame _ _ _ key default Hd Hafter).
  apply get_setitem_eq.
Qed.

Lemma decode_dotenv_last_wins_witness :
  get [(lit "PORT", lit "9000"); (lit "HOST", lit "h")] (lit "PORT") (lit "")
  = lit "9000".
Proof.
  apply (decode_dotenv_last_wins [lit "PORT=8000"] (lit "PORT=9000") [lit "HOST=h"]
           (lit "PORT") (lit "9000")).
  - vm_compute. reflexivity.
  - vm_compute. reflexivity.
  - repeat constructor. intros value'. vm_compute. discriminate.
Defined.

(** ** The script *)

Lemma decode_encoded_clean env_data :
  dotenv_clean env_data -> _decode_dotenv (dotenv_lines env_data) = Return env_data.
Proof.
  intros [Hnd Hall]. apply decode_encoded_lines; [done| |].
  - eapply Forall_impl; [exact Hall|]. by intros item (? & ? & _).
  - unfold dotenv_lines. rewrite map_map. apply map_ext_Forall.
    eapply Forall_impl; [exact Hall|].
    intros [k v] (_ & _ & Hk & Hv). simpl in *. by apply strip_item.
Qed.

Lemma setitem_key_present d key value : key ∈ (setitem d key value).*1.
Proof.
  induction d as [|[k v] d IH]; simpl; [set_solver|].
  destruct (decide (k = key)) as [->|Hne]; csimpl; set_solver.
Qed.

Lemma url_clean host port :
  "="%char ∉ host -> "="%char ∉ port -> rstrip port = port ->
  ("="%char ∉ host ++ lit ":" ++ port)
  /\ rstrip (host ++ lit ":" ++ port) = host ++ lit ":" ++ port.
Proof.
  intros Hh Hp Hr. split.
  - rewrite !elem_of_app. intros [?|[Hc|?]]; [done| |done].
    change (lit ":") with [":"%char] in Hc.
    by apply list_elem_of_singleton in Hc.
  - by apply rstrip_app_anchor.
Qed.

Lemma cors_value_clean cors host port :
  "="%char ∉ cors -> "="%char ∉ host -> "="%char ∉ port -> rstrip port = port ->
  ("="%char ∉ join (lit ",") [cors; host ++ lit ":" ++ port])
  /\ rstrip (join (lit ",") [cors; host ++ lit ":" ++ port])
     = join (lit ",") [cors; host ++ lit ":" ++ port].
Proof.
  intros Hc Hh Hp Hr. destruct (url_clean host port Hh Hp Hr) as [Hu Hur].
  change (join (lit ",") [cors; host ++ lit ":" ++ port])
    with (cors ++ ","%char :: (host ++ lit ":" ++ port)).
  split.
  - rewrite elem_of_app, elem_of_cons. intros [?|[?|?]]; done.
  - by apply rstrip_app_anchor.
Qed.

(** X14: the two dictionaries the script writes can be read back.  When
    the three input files decode, the dictionary written to [.env] holds
    [BACKEND_CORS_ORIGINS], the one written to [../frontend/.env] holds
    [REACT_APP_BACKEND_URL], and decoding the lines that [_encode_dotenv]
    builds for either gives that dictionary again: the URLs the script
    puts in bring no ["="] and no trailing white space. *)
Theorem merged_env_readable backend mongodb frontend backend_env frontend_env :
  merged_env backend mongodb frontend = Return (backend_env, frontend_env) ->
  lit "BACKEND_CORS_ORIGINS" ∈ backend_env.*1
  /\ lit "REACT_APP_BACKEND_URL" ∈ frontend_env.*1
  /\ _decode_dotenv (dotenv_lines backend_env) = Return backend_env
  /\ _decode_dotenv (dotenv_lines frontend_env) = Return frontend_env.
Proof.
  unfold merged_env. intros Hm.
  destruct (_decode_dotenv backend) as [e1|] eqn:E1; [|done].
  destruct (_decode_dotenv mongodb) as [e2|] eqn:E2; [|done].
  destruct (_decode_dotenv frontend) as [e3|] eqn:E3; [|done].
  injection Hm as <- <-.
  assert (dotenv_clean (update (update [] e1) e2)) as Hb.
  { apply update_clean; [apply update_clean; [apply dotenv_clean_nil|]|].
    - by eapply decode_lines_clean; [apply dotenv_clean_nil|].
    - by eapply decode_lines_clean; [apply dotenv_clean_nil|]. }
  assert (dotenv_clean (update [] e3)) as Hf.
  { apply update_clean; [apply dotenv_clean_nil|].
    by eapply decode_lines_clean; [apply dotenv_clean_nil|]. }
  destruct (get_clean (update (update [] e1) e2) (lit "BACKEND_CORS_ORIGINS")
              (lit "") Hb) as [Hc _]; [apply not_elem_of_nil|done|].
  destruct (get_clean (update [] e3) (lit "HOST") (lit "http://localhost") Hf)
    as [Hfh _]; [by apply (bool_decide_unpack _)|done|].
  destruct (get_clean (update [] e3) (lit "PORT") (lit "3333") Hf)
    as [Hfp Hfr]; [by apply (bool_decide_unpack _)|done|].
  destruct (get_clean (update (update [] e1) e2) (lit "SERVER_HOST")
              (lit "http://localhost") Hb)
    as [Hbh _]; [by apply (bool_decide_unpack _)|done|].
  destruct (get_clean (update (update [] e1) e2) (lit "SERVER_PORT")
              (lit "8000") Hb)
    as [Hbp Hbr]; [by apply (bool_decide_unpack _)|done|].
  destruct (cors_value_clean _ _ _ Hc Hfh Hfp Hfr) as [Hcv Hcr].
  destruct (url_clean _ _ Hbh Hbp Hbr) as [Huv Hur].
  split; [apply setitem_key_present|]. split; [apply setitem_key_present|].
  split; apply decode_encoded_clean, setitem_clean;
    [exact Hb|by apply (bool_decide_unpack _)|exact Hcv|reflexivity|exact Hcr
    |exact Hf|by apply (bool_decide_unpack _)|exact Huv|reflexivity|exact Hur].
Qed.

Lemma merged_env_readable_witness :
  let backend := [lit "SERVER_HOST=http://api"; lit "SERVER_PORT=8000"] in
  let mongodb := [lit "SERVER_PORT=9000"; lit "BACKEND_CORS_ORIGINS=http://a"] in
  let frontend := [lit "HOST=http://web"] in
  let backend_env :=
    [(lit "SERVER_HOST", lit "http://api"); (lit "SERVER_PORT", lit "9000");
     (lit "BACKEND_CORS_ORIGINS", lit "http://a,http://web:3333")] in
  let frontend_env :=
    [(lit "HOST", lit "http://web");
     (lit "REACT_APP_BACKEND_URL", lit "http://api:9000")] in
  merged_env backend mongodb frontend = Return (backend_env, frontend_env)
  /\ _decode_dotenv (dotenv_lines backend_env) = Return backend_env.
Proof.
  intros backend mongodb frontend backend_env frontend_env.
  assert (merged_env backend mongodb frontend = Return (backend_env, frontend_env))
    as H by (vm_compute; reflexivity).
  split; [exact H|].
  exact (proj1 (proj2 (proj2 (merged_env_readable _ _ _ _ _ H)))).
Defined.

(** X15: the script stops with [ValueError], before it writes anything,
    exactly when some line of one of the three input files does not hold
    exactly one ["="]. *)
Theorem merged_env_rejects backend mongodb frontend :
  merged_env backend mongodb frontend = ValueError
  <-> Exists (fun line => count_occ ascii_dec line "="%char <> 1%nat)
             (backend ++ mongodb ++ frontend).
Proof.
  rewrite !Exists_app, <- !(decode_lines_rejects []).
  unfold merged_env, _decode_dotenv.
  destruct (decode_lines [] backend) as [e1|]; [|tauto].
  destruct (decode_lines [] mongodb) as [e2|]; [|tauto].
  destruct (decode_lines [] frontend) as [e3|]; [|tauto].
  split; [done|]. intros [?|[?|?]]; done.
Qed.

(** The missing [BACKEND_CORS_ORIGINS]: the script joins the empty default
    and the frontend URL, and the list of origins it writes starts with a
    comma. *)
Example merged_env_without_cors :
  merged_env [lit "SERVER_HOST=http://api"] [] []
  = Return
      ([(lit "SERVER_HOST", lit "http://api");
        (lit "BACKEND_CORS_ORIGINS", lit ",http://localhost:3333")],
       [(lit "REACT_APP_BACKEND_URL", lit "http://api:8000")]).
Proof. vm_compute. reflexivity. Qed.

(** ** Writing a file and reading it again *)

Lemma readlines_from_line acc l rest :
  "010"%char ∉ l -> "013"%char ∉ l ->
  readlines_from acc (l ++ "010"%char :: rest)
  = (rev acc ++ l ++ ["010"%char]) :: readlines_from [] rest.
Proof.
  revert acc. induction l as [|c l IH]; intros acc Hn Hr.
  - reflexivity.
  - rewrite <- app_comm_cons.
    change (readlines_from acc (c :: ?t))
      with (if decide (c = "010"%char) then
              rev (c :: acc) :: readlines_from [] t
            else if decide (c = "013"%char) then
              match t with
              | c' :: rest' =>
                  if decide (c' = "010"%char)
                  then rev ("010"%char :: acc) :: readlines_from [] rest'
                  else rev ("010"%char :: acc) :: readlines_from [] t
              | [] => [rev ("010"%char :: acc)]
              end
            else readlines_from (c :: acc) t).
    rewrite decide_False by set_solver. rewrite decide_False by set_solver.
    rewrite IH by set_solver. simpl. by rewrite <- app_assoc.
Qed.

Lemma readlines_from_last acc l :
  "010"%char ∉ l -> "013"%char ∉ l -> rev acc ++ l <> [] ->
  readlines_from acc l = [rev acc ++ l].
Proof.
  revert acc. induction l as [|c l IH]; intros acc Hn Hr Hne.
  - rewrite app_nil_r in *. simpl. destruct acc; [done|reflexivity].
  - change (readlines_from acc (c :: l))
      with (if decide (c = "010"%char) then
              rev (c :: acc) :: readlines_from [] l
            else if decide (c = "013"%char) then
              match l with
              | c' :: rest' =>
                  if decide (c' = "010"%char)
                  then rev ("010"%char :: acc) :: readlines_from [] rest'
                  else rev ("010"%char :: acc) :: readlines_from [] l
              | [] => [rev ("010"%char :: acc)]
              end
            else readlines_from (c :: acc) l).
    rewrite decide_False by set_solver. rewrite decide_False by set_solver.
    rewrite IH; [simpl; by rewrite <- app_assoc|set_solver|set_solver|].
    simpl. rewrite <- app_assoc. simpl. by destruct (rev acc).
Qed.

Lemma strip_line_end l :
  l <> [] -> lstrip l = l -> rstrip l = l -> strip (l ++ ["010"%char]) = l.
Proof.
  intros Hne Hl Hr. unfold strip.
  assert (lstrip (l ++ ["010"%char]) = l ++ ["010"%char]) as ->.
  { apply lstrip_fixed. apply lstrip_fixed in Hl. by destruct l. }
  unfold rstrip. rewrite rev_app_distr. simpl.
  apply rstrip_fixed in Hr. by rewrite Hr, rev_involutive.
Qed.

Lemma readlines_join ls :
  Forall (fun l => l <> [] /\ ("010"%char ∉ l) /\ ("013"%char ∉ l)
                   /\ lstrip l = l /\ rstrip l = l) ls ->
  map strip (readlines (join ["010"%char] ls)) = ls.
Proof.
  unfold readlines. induction 1 as [|l ls (Hne & Hn & Hr & Hl & Hrs) Hall IH].
  - done.
  - destruct ls as [|l2 ls].
    + simpl. rewrite readlines_from_last by done. simpl.
      by rewrite strip_fixed.
    + change (join ["010"%char] (l :: l2 :: ls))
        with (l ++ "010"%char :: join ["010"%char] (l2 :: ls)).
      rewrite readlines_from_line by done. simpl.
      rewrite strip_line_end by done. f_equal. exact IH.
Qed.

(** X16: a dictionary written by [_encode_dotenv] with ["\n"] as line
    separator and read back by [_decode_dotenv] through [readlines] comes
    back as it was, provided no key is there twice and keys and values
    are free of ["="], of line breaks and of white space at the outer
    ends. *)
Theorem encode_decode_roundtrip env_data :
  dotenv_clean env_data ->
  Forall (fun item => ("010"%char ∉ item.1) /\ ("013"%char ∉ item.1)
                      /\ ("010"%char ∉ item.2) /\ ("013"%char ∉ item.2))
         env_data ->
  _decode_dotenv (readlines (_encode_dotenv ["010"%char] env_data))
  = Return env_data.
Proof.
  intros Hclean Hplain. destruct Hclean as [Hnd Hall].
  apply decode_encoded_lines; [done| |].
  - eapply Forall_impl; [exact Hall|]. by intros item (? & ? & _).
  - unfold _encode_dotenv. apply readlines_join.
    unfold dotenv_lines. apply Forall_fmap, Forall_forall. intros [k v] Hitem.
    rewrite Forall_forall in Hall, Hplain.
    destruct (Hall _ Hitem) as (_ & _ & Hk & Hv).
    destruct (Hplain _ Hitem) as (Hn1 & Hr1 & Hn2 & Hr2). simpl in *.
    change (k ++ lit "=" ++ v) with (k ++ "="%char :: v).
    split; [by destruct k|].
    split; [rewrite elem_of_app, elem_of_cons; intros [?|[?|?]]; done|].
    split; [rewrite elem_of_app, elem_of_cons; intros [?|[?|?]]; done|].
    split; [by apply lstrip_app_anchor|by apply rstrip_app_anchor].
Qed.

Lemma encode_decode_roundtrip_witness :
  let env_data := [(lit "HOST", lit "http://web"); (lit "PORT", lit "3333")] in
  _decode_dotenv (readlines (_encode_dotenv ["010"%char] env_data))
  = Return env_data.
Proof.
  intros env_data. apply encode_decode_roundtrip.
  - split; [apply (bool_decide_unpack _); vm_compute; exact I|].
    repeat constructor; simpl; by apply (bool_decide_unpack _).
  - repeat constructor; simpl; by apply (bool_decide_unpack _).
Defined.

(** How [readlines] cuts a text: at ["\n"], at ["\r\n"] and at a lone
    ["\r"], a last line without line end included. *)
Example readlines_run :
  readlines (lit "A=1" ++ ["013"%char; "010"%char] ++ lit "B=2"
             ++ ["013"%char] ++ lit "C=3" ++ ["010"%char; "010"%char]
             ++ lit "D=4")%list
  = [(lit "A=1" ++ ["010"%char])%list; (lit "B=2" ++ ["010"%char])%list;
     (lit "C=3" ++ ["010"%char])%list; ["010"%char]; lit "D=4"].
Proof. vm_compute. reflexivity. Qed.
